(** * The Ijaw grammar engine (backend/ijaw_grammar.py)

    A shallow embedding of [IjawGrammarEngine]: the role tables built by
    [_analyze_dictionary], [classify_word], [translate_word],
    [parse_sentence] and the template cascade of [generate_translation],
    followed by the properties of the engine.

    Python values are modelled as follows.
    - [str] is [string]; a literal holds the UTF-8 bytes of the source
      literal.  [lower], [strip], [split] and [startswith] are the [str]
      methods on the ASCII range: [lower] maps [A-Z] to [a-z], the
      whitespace characters are the ASCII ones Python knows (codes 9 to 13,
      28 to 32), and every byte beyond 127 is neither changed nor white.
    - [dict] is [gmap string string]; [k in d] is [contains], [d[k]] is
      [subscript] and raises [KeyError] on a missing key.
    - [list] is [list]; [l[i]] is [index] and raises [IndexError] out of
      range.
    - [Optional[str]] is [option string], with Python's truthiness
      ([None] and the empty string are false).
    - A call that may raise returns a [result].

    The translation service of backend/main.py ([translate_to_ijaw],
    [add_translation]) and the organiser of
    backend/organize_dictionary.py follow the engine. *)

From stdpp Require Import base decidable option list strings gmap.
From Stdlib Require Import Ascii String Sorted.

Local Open Scope list_scope.
Local Open Scope string_scope.

(** ** Exceptions *)

Inductive PyExn : Type :=
  | KeyError
  | IndexError
  | AttributeError.

Inductive result (A : Type) : Type :=
  | Ok (a : A)
  | Raise (e : PyExn).

Arguments Ok {A} a.
Arguments Raise {A} e.

#[global] Instance result_ret : MRet result := fun _ a => Ok a.
#[global] Instance result_bind : MBind result := fun _ _ f m =>
  match m with
  | Ok a => f a
  | Raise e => Raise e
  end.

(** [a and b] where both operands may raise: [b] is only evaluated when
    [a] is true. *)
Definition andM (a b : result bool) : result bool :=
  x ← a; if (x : bool) then b else Ok false.

(** ** The [str] methods the engine uses *)

Module PyStr.

Definition is_space (c : ascii) : bool :=
  let n := nat_of_ascii c in
  ((9 <=? n) && (n <=? 13) || (28 <=? n) && (n <=? 32))%nat.

Definition is_upper (c : ascii) : bool :=
  let n := nat_of_ascii c in
  ((65 <=? n) && (n <=? 90))%nat.

Definition lower_char (c : ascii) : ascii :=
  if is_upper c then ascii_of_nat (nat_of_ascii c + 32) else c.

Fixpoint lower (s : string) : string :=
  match s with
  | EmptyString => EmptyString
  | String c s' => String (lower_char c) (lower s')
  end.

Fixpoint lstrip (s : string) : string :=
  match s with
  | EmptyString => EmptyString
  | String c s' => if is_space c then lstrip s' else s
  end.

Fixpoint rstrip (s : string) : string :=
  match s with
  | EmptyString => EmptyString
  | String c s' =>
      match rstrip s' with
      | EmptyString => if is_space c then EmptyString else String c EmptyString
      | r => String c r
      end
  end.

Definition strip (s : string) : string := rstrip (lstrip s).

(** Puts [c] in front of the first token of [l]. *)
Definition extend_first (c : ascii) (l : list string) : list string :=
  match l with
  | [] => [String c EmptyString]
  | t :: ts => String c t :: ts
  end.

(** [s.split()]: the maximal runs of non-white characters, in order. *)
Fixpoint split (s : string) : list string :=
  match s with
  | EmptyString => []
  | String c s' =>
      if is_space c then split s'
      else
        match s' with
        | EmptyString => [String c EmptyString]
        | String c' _ =>
            if is_space c' then String c EmptyString :: split s'
            else extend_first c (split s')
        end
  end.

Definition startswith (s p : string) : bool := String.prefix p s.

(** [sep.join(l)] *)
Definition join (sep : string) (l : list string) : string :=
  String.concat sep l.

End PyStr.

Import PyStr.

(** ** Containers *)

(** [k in d] *)
Definition contains (d : gmap string string) (k : string) : bool :=
  match d !! k with
  | Some _ => true
  | None => false
  end.

(** [d[k]] *)
Definition subscript (d : gmap string string) (k : string) : result string :=
  match d !! k with
  | Some v => Ok v
  | None => Raise KeyError
  end.

(** [l[i]] for a non-negative [i] *)
Definition index (l : list string) (i : nat) : result string :=
  match l !! i with
  | Some w => Ok w
  | None => Raise IndexError
  end.

(** [w in [a, b, ...]] *)
Definition in_list (w : string) (l : list string) : bool :=
  existsb (String.eqb w) l.

(** ** Optional slots *)

(** Truthiness of an [Optional[str]]. *)
Definition truthy (o : option string) : bool :=
  match o with
  | None => false
  | Some w => negb (String.eqb w "")
  end.

(** [o == w] *)
Definition slot_eqb (o : option string) (w : string) : bool :=
  match o with
  | None => false
  | Some v => String.eqb v w
  end.

(** [o in [a, b, ...]] *)
Definition slot_in (o : option string) (l : list string) : bool :=
  match o with
  | None => false
  | Some v => in_list v l
  end.

(** ** The engine *)

Inductive WordType : Type :=
  | SUBJECT
  | OBJECT
  | VERB
  | ADJECTIVE
  | PRONOUN
  | NOUN
  | PREPOSITION
  | DETERMINER
  | UNKNOWN.

#[global] Instance WordType_eq_dec : EqDecision WordType.
Proof. solve_decision. Defined.

(** The tables of [_analyze_dictionary].  No table repeats a key. *)

Definition pronouns_items : list (string * string) :=
  [ ("I", "Arí"); ("you", "Ị"); ("he", "U"); ("she", "A");
    ("we", "Wónì"); ("they", "Wónì"); ("my", "yè"); ("your", "wè");
    ("his", "yè"); ("her", "yè"); ("our", "wónì"); ("their", "wónì") ].

Definition verbs_items : list (string * string) :=
  [ ("am", "ye"); ("is", "ye"); ("are", "ye");
    ("have", "sabi"); ("has", "sabi");
    ("want", "wọnt"); ("wants", "wọnt");
    ("like", "laik"); ("likes", "laik");
    ("see", "fịnị"); ("sees", "fịnị");
    ("eat", "fị"); ("eats", "fị");
    ("drink", "mu"); ("drinks", "mu");
    ("go", "gha"); ("goes", "gha");
    ("come", "bia"); ("comes", "bia");
    ("work", "wok"); ("works", "wok");
    ("sleep", "turu"); ("sleeps", "turu");
    ("build", "bil"); ("builds", "bil");
    ("take", "akị́"); ("takes", "akị́");
    ("give", "giv"); ("gives", "giv");
    ("help", "help"); ("helps", "help");
    ("walk", "waka"); ("walks", "waka");
    ("run", "ron"); ("runs", "ron");
    ("dance", "dans"); ("dances", "dans");
    ("sing", "son"); ("sings", "son");
    ("cook", "nkọ̀rọ"); ("cooks", "nkọ̀rọ") ].

Definition nouns_items : list (string * string) :=
  [ ("house", "wárị"); ("water", "bení"); ("food", "fị́yaị");
    ("fish", "ìndí"); ("river", "ọ́wụ"); ("sun", "sọ́");
    ("moon", "akalụ́"); ("child", "tọ́bọ̀ụ"); ("friend", "kẹ́nị");
    ("family", "wárịbịbị̀"); ("father", "owéi"); ("mother", "ẹ́rẹ");
    ("brother", "bàrà"); ("sister", "eréwèrí"); ("money", "abadị-ugú");
    ("yam", "òkù-ị̀wẹ"); ("cassava", "abábùrú"); ("canoe", "òrù");
    ("cup", "agbéì"); ("net", "agbunú"); ("market", "maket");
    ("village", "òkù-ámà"); ("farm", "ògbó"); ("fire", "faya");
    ("ancestor", "ìwéi"); ("ancestors", "ìwéi-wónì");
    ("children", "tọ́bọ̀ụ-wónì"); ("friends", "kẹ́nị-wónì");
    ("people", "òkù-wónì") ].

Definition adjectives_items : list (string * string) :=
  [ ("good", "botu"); ("bad", "kiri"); ("big", "toru");
    ("small", "kiri-kiri"); ("happy", "hapi"); ("tired", "sik");
    ("strong", "strong"); ("wise", "akíròro"); ("kind", "botu");
    ("busy", "wok haad"); ("hungry", "hongri"); ("thirsty", "tosti");
    ("hot", "tuu dọ́n"); ("cold", "kol"); ("clean", "klin");
    ("fresh", "nyu"); ("warm", "hot"); ("bright", "rait");
    ("deep", "tọ́n"); ("long", "pórù"); ("tall", "toru");
    ("beautiful", "fain"); ("angry", "kírimá"); ("sad", "kiri");
    ("old", "òkú"); ("young", "tọ́bọ̀ụ"); ("new", "nyu");
    ("fast", "fast"); ("slow", "slow"); ("sick", "sik") ].

Definition pronouns : gmap string string := list_to_map pronouns_items.
Definition verbs : gmap string string := list_to_map verbs_items.
Definition nouns : gmap string string := list_to_map nouns_items.
Definition adjectives : gmap string string := list_to_map adjectives_items.

(** The closed word lists that the source writes in line. *)
Definition POSSESSIVES : list string :=
  ["my"; "your"; "his"; "her"; "our"; "their"].
Definition DETERMINERS : list string := ["the"; "a"; "an"; "this"; "that"].
Definition PREPOSITIONS : list string :=
  ["to"; "at"; "in"; "on"; "with"; "from"].
Definition PLACES : list string :=
  ["house"; "market"; "river"; "village"; "farm"].
Definition TIMES : list string :=
  ["now"; "today"; "tomorrow"; "early"; "late"].

Definition classify_word (word : string) : WordType :=
  let word_lower := lower word in
  if contains pronouns word_lower then PRONOUN
  else if contains verbs word_lower then VERB
  else if contains nouns word_lower then NOUN
  else if contains adjectives word_lower then ADJECTIVE
  else if in_list word_lower DETERMINERS then DETERMINER
  else if in_list word_lower PREPOSITIONS then PREPOSITION
  else UNKNOWN.

(** The dict [parsed] of [parse_sentence]; its keys are fixed. *)
Record Parsed : Type := mkParsed {
  subject : option string;
  object : option string;
  verb : option string;
  adjective : option string;
  preposition : option string;
  location : option string;
  time : option string;
  question_type : option string
}.

Definition parsed_init : Parsed :=
  mkParsed None None None None None None None None.

Definition set_subject (w : string) (p : Parsed) : Parsed :=
  mkParsed (Some w) (object p) (verb p) (adjective p) (preposition p)
           (location p) (time p) (question_type p).
Definition set_object (w : string) (p : Parsed) : Parsed :=
  mkParsed (subject p) (Some w) (verb p) (adjective p) (preposition p)
           (location p) (time p) (question_type p).
Definition set_verb (w : string) (p : Parsed) : Parsed :=
  mkParsed (subject p) (object p) (Some w) (adjective p) (preposition p)
           (location p) (time p) (question_type p).
Definition set_adjective (w : string) (p : Parsed) : Parsed :=
  mkParsed (subject p) (object p) (verb p) (Some w) (preposition p)
           (location p) (time p) (question_type p).
Definition set_location (w : string) (p : Parsed) : Parsed :=
  mkParsed (subject p) (object p) (verb p) (adjective p) (preposition p)
           (Some w) (time p) (question_type p).
Definition set_time (w : string) (p : Parsed) : Parsed :=
  mkParsed (subject p) (object p) (verb p) (adjective p) (preposition p)
           (location p) (Some w) (question_type p).
Definition set_question_type (w : string) (p : Parsed) : Parsed :=
  mkParsed (subject p) (object p) (verb p) (adjective p) (preposition p)
           (location p) (time p) (Some w).

(** The body of the token loop of [parse_sentence]. *)
Definition parse_step (parsed : Parsed) (word : string) : Parsed :=
  let word_type := classify_word word in
  if bool_decide (word_type = PRONOUN) && negb (truthy (subject parsed))
     && negb (in_list word POSSESSIVES)
  then set_subject word parsed
  else if bool_decide (word_type = VERB) && negb (truthy (verb parsed))
  then set_verb word parsed
  else if bool_decide (word_type = NOUN)
  then
    if negb (truthy (object parsed)) then set_object word parsed
    else if in_list word PLACES then set_location word parsed
    else parsed
  else if bool_decide (word_type = ADJECTIVE) && negb (truthy (adjective parsed))
  then set_adjective word parsed
  else if in_list word TIMES then set_time word parsed
  else parsed.

Definition parse_loop (words : list string) (parsed : Parsed) : Parsed :=
  fold_left parse_step words parsed.

(** The question detection that follows the loop. *)
Definition detect_question (sentence : string) (parsed : Parsed) : Parsed :=
  if startswith sentence "where" then set_question_type "where" parsed
  else if startswith sentence "how are" then set_question_type "how_are" parsed
  else if startswith sentence "do you have"
  then set_question_type "do_you_have" parsed
  else parsed.

Definition parse_sentence (sentence : string) : Parsed :=
  let words := split (strip (lower sentence)) in
  detect_question sentence (parse_loop words parsed_init).

Section Engine.

(** [self.dictionary], the phrase dictionary loaded from the JSON file. *)
Variable dictionary : gmap string string.

Definition translate_word (word : string) : result string :=
  let word_lower := lower word in
  if contains dictionary word_lower then subscript dictionary word_lower
  else if contains pronouns word_lower then subscript pronouns word_lower
  else if contains verbs word_lower then subscript verbs word_lower
  else if contains nouns word_lower then subscript nouns word_lower
  else if contains adjectives word_lower then subscript adjectives word_lower
  else Ok word.

(** [translate_word(parsed[k])]: the argument is an [Optional[str]], and
    [None.lower()] raises. *)
Definition translate_slot (o : option string) : result string :=
  match o with
  | Some word => translate_word word
  | None => Raise AttributeError
  end.

(** The last statement of [generate_translation]: word by word. *)
Definition fallback (sentence : string) : result string :=
  let words := split sentence in
  translated_words ← mapM translate_word words;
  Ok (join " " translated_words).

(** The possessive block of [generate_translation], and what follows it. *)
Definition possessive_patterns (sentence sentence_lower : string)
  : result string :=
  let words := split sentence_lower in
  if (2 <=? List.length words)%nat then
    w0 ← index words 0;
    if in_list w0 POSSESSIVES then
      possessive ← translate_word w0;
      w1 ← index words 1;
      noun ← translate_word w1;
      if (List.length words =? 2)%nat then Ok (noun ++ " " ++ possessive)
      else
        c3 ← andM (Ok (List.length words =? 3)%nat)
                  (w2 ← index words 2; Ok (in_list w2 ["is"; "are"]));
        if (c3 : bool) then Ok (noun ++ " " ++ possessive ++ " ye")
        else if (3 <=? List.length words)%nat then
          c4 ← andM (w2 ← index words 2; Ok (in_list w2 ["is"; "are"]))
                    (andM (Ok (List.length words =? 4)%nat)
                          (w3 ← index words 3; Ok (contains adjectives w3)));
          if (c4 : bool) then
            w3 ← index words 3;
            adj ← translate_word w3;
            Ok (possessive ++ " " ++ noun ++ " " ++ adj ++ " ye")
          else
            c4' ← andM (w2 ← index words 2; Ok (in_list w2 ["is"; "are"]))
                       (Ok (List.length words =? 4)%nat);
            if (c4' : bool) then
              w3 ← index words 3;
              adj ← translate_word w3;
              Ok (noun ++ " " ++ possessive ++ " " ++ adj ++ " ye")
            else
              translated ← mapM translate_word (drop 2 words);
              let rest := join " " translated in
              Ok (noun ++ " " ++ possessive ++ " " ++ rest)
        else fallback sentence
    else fallback sentence
  else fallback sentence.

(** The statement templates: the [if]/[elif]/[elif] on the slots. *)
Definition statement_patterns (sentence sentence_lower : string)
           (parsed : Parsed) : result string :=
  if truthy (subject parsed) && truthy (adjective parsed) then
    subj ← translate_slot (subject parsed);
    adj ← translate_slot (adjective parsed);
    Ok (subj ++ " " ++ adj ++ " ye")
  else if truthy (subject parsed) && truthy (object parsed)
          && truthy (verb parsed) then
    subj ← translate_slot (subject parsed);
    obj ← translate_slot (object parsed);
    verb_t ← translate_slot (verb parsed);
    if slot_in (verb parsed) ["have"; "has"] then
      Ok (subj ++ " " ++ obj ++ " sabi")
    else if slot_in (verb parsed) ["want"; "wants"] then
      Ok (subj ++ " " ++ obj ++ " wọnt")
    else if slot_in (verb parsed) ["like"; "likes"] then
      Ok (subj ++ " " ++ obj ++ " laik")
    else if slot_in (verb parsed) ["eat"; "eats"] then
      Ok (subj ++ " " ++ obj ++ " fị")
    else if slot_in (verb parsed) ["build"; "builds"] then
      Ok (subj ++ " " ++ obj ++ " bil")
    else Ok (subj ++ " " ++ obj ++ " " ++ verb_t)
  else if truthy (subject parsed) && truthy (verb parsed) then
    subj ← translate_slot (subject parsed);
    verb_t ← translate_slot (verb parsed);
    if truthy (location parsed) then
      loc ← translate_slot (location parsed);
      if slot_in (verb parsed) ["go"; "goes"] then
        Ok (subj ++ " " ++ loc ++ " gha")
      else if slot_in (verb parsed) ["come"; "comes"] then
        Ok (subj ++ " " ++ loc ++ " bia")
      else if slot_in (verb parsed) ["walk"; "walks"] then
        Ok (subj ++ " " ++ loc ++ " waka")
      else Ok (subj ++ " " ++ loc ++ " " ++ verb_t)
    else if truthy (time parsed) then
      time_word ← translate_slot (time parsed);
      Ok (subj ++ " " ++ time_word ++ " " ++ verb_t)
    else if slot_in (verb parsed) ["am"; "is"; "are"] then
      Ok (subj ++ " ye")
    else Ok (subj ++ " " ++ verb_t)
  else possessive_patterns sentence sentence_lower.

(** The question templates: the first [if]/[elif]/[elif]. *)
Definition question_patterns (sentence sentence_lower : string)
           (parsed : Parsed) : result string :=
  if slot_eqb (question_type parsed) "how_are" then Ok "I bódọụ?"
  else if slot_eqb (question_type parsed) "where" && truthy (object parsed)
  then
    obj_translation ← translate_slot (object parsed);
    Ok (obj_translation ++ " kí ye?")
  else if slot_eqb (question_type parsed) "do_you_have"
          && truthy (object parsed)
  then
    obj_translation ← translate_slot (object parsed);
    Ok ("Ị " ++ obj_translation ++ " sabi?")
  else statement_patterns sentence sentence_lower parsed.

Definition generate_translation (sentence : string) : result string :=
  let sentence_lower := strip (lower sentence) in
  if contains dictionary sentence_lower
  then subscript dictionary sentence_lower
  else
    let parsed := parse_sentence sentence in
    question_patterns sentence sentence_lower parsed.

End Engine.

Arguments classify_word : simpl never.
Arguments translate_word : simpl never.
Arguments contains : simpl never.
Arguments subscript : simpl never.
Arguments in_list : simpl never.

(** ** The translation service (backend/main.py)

    [translate_to_ijaw] reads two globals: [en_to_ijaw_dict] and
    [grammar_engine], which is [None] or an engine that loaded its own
    copy of the dictionary file.  Both are arguments here; the engine is
    given by its dictionary.  Logging and the rewriting of the dictionary
    file by [add_translation] are left out. *)

(** [\w] on the ASCII range: letters, digits and the underscore.  Bytes
    beyond 127 are kept: they belong to characters outside ASCII, of which
    Python keeps the letters and digits. *)
Definition is_word (c : ascii) : bool :=
  let n := nat_of_ascii c in
  ((48 <=? n) && (n <=? 57) || (65 <=? n) && (n <=? 90)
   || (97 <=? n) && (n <=? 122) || (n =? 95) || (128 <=? n))%nat.

(** [re.sub(r'[^\w\s]', '', word)] *)
Fixpoint remove_punctuation (word : string) : string :=
  match word with
  | EmptyString => EmptyString
  | String c word' =>
      if is_word c || is_space c then String c (remove_punctuation word')
      else remove_punctuation word'
  end.

(** The body of the word loop of [translate_to_ijaw]. *)
Definition lookup_word (en_to_ijaw_dict : gmap string string)
           (word : string) : result string :=
  let clean_word := remove_punctuation word in
  if contains en_to_ijaw_dict clean_word
  then subscript en_to_ijaw_dict clean_word
  else Ok word.

(** The last part of [translate_to_ijaw]: word by word. *)
Definition word_by_word (en_to_ijaw_dict : gmap string string)
           (text : string) : result string :=
  let words := split text in
  translated_words ← mapM (lookup_word en_to_ijaw_dict) words;
  Ok (join " " translated_words).

Definition translate_to_ijaw (en_to_ijaw_dict : gmap string string)
           (grammar_engine : option (gmap string string))
           (english_text : string) : result string :=
  if String.eqb english_text "" then Ok ""
  else
    let text := lower (strip english_text) in
    if contains en_to_ijaw_dict text then subscript en_to_ijaw_dict text
    else
      match grammar_engine with
      | Some engine_dictionary =>
          (* try ... except Exception *)
          match generate_translation engine_dictionary english_text with
          | Ok generated_translation =>
              if negb (String.eqb generated_translation "")
                 && negb (String.eqb generated_translation english_text)
              then Ok generated_translation
              else word_by_word en_to_ijaw_dict text
          | Raise _ => word_by_word en_to_ijaw_dict text
          end
      | None => word_by_word en_to_ijaw_dict text
      end.

(** The update of [en_to_ijaw_dict] made by [add_translation]. *)
Definition add_translation (en_to_ijaw_dict : gmap string string)
           (english_word ijaw_word : string) : gmap string string :=
  <[lower english_word := ijaw_word]> en_to_ijaw_dict.

(** No character of the string is white. *)
Fixpoint no_space (s : string) : bool :=
  match s with
  | EmptyString => true
  | String c s' => negb (is_space c) && no_space s'
  end.

(** ** Organising the dictionary (backend/organize_dictionary.py)

    The order of the entries is what this script is about: a [dict] is
    here the list of its items in insertion order, in which no key
    repeats. *)

(** [d.get(k)] *)
Fixpoint dict_get (k : string) (d : list (string * string)) : option string :=
  match d with
  | [] => None
  | (k', v) :: d' => if String.eqb k k' then Some v else dict_get k d'
  end.

(** [d[k] = v]: a key of [d] keeps its place, a new key goes last. *)
Fixpoint dict_set (k v : string) (d : list (string * string))
  : list (string * string) :=
  match d with
  | [] => [(k, v)]
  | (k', v') :: d' =>
      if String.eqb k k' then (k, v) :: d' else (k', v') :: dict_set k v d'
  end.

(** [d.update(other)] *)
Definition dict_update (d other : list (string * string))
  : list (string * string) :=
  fold_left (λ acc item, dict_set item.1 item.2 acc) other d.

(** [OrderedDict(items)] *)
Definition dict_of_items (items : list (string * string))
  : list (string * string) :=
  dict_update [] items.

(** [s.endswith(p)] *)
Definition endswith (s p : string) : bool :=
  let n := String.length s in
  let m := String.length p in
  (m <=? n)%nat && String.eqb (substring (n - m) m s) p.

(** The dict [categories] of [categorize_entries]; its keys are fixed. *)
Record Categories : Type := mkCategories {
  greetings_and_politeness : list (string * string);
  basic_words : list (string * string);
  common_phrases : list (string * string);
  complete_sentences : list (string * string)
}.

Definition greetings : list string :=
  ["hello"; "goodbye"; "thank you"; "please"; "yes"; "no";
   "good morning"; "good night"; "nice to meet you"].

(** The body of the loop of [categorize_entries]. *)
Definition categorize_entry (categories : Categories)
           (item : string * string) : Categories :=
  let english := item.1 in
  let ijaw := item.2 in
  let english_lower := strip (lower english) in
  if in_list english_lower greetings then
    mkCategories
      (dict_set english ijaw (greetings_and_politeness categories))
      (basic_words categories) (common_phrases categories)
      (complete_sentences categories)
  else if (List.length (split english) =? 1)%nat then
    mkCategories
      (greetings_and_politeness categories)
      (dict_set english ijaw (basic_words categories))
      (common_phrases categories) (complete_sentences categories)
  else if (List.length (split english) <=? 4)%nat
          && negb (endswith english ".") && negb (endswith english "?")
  then
    mkCategories
      (greetings_and_politeness categories) (basic_words categories)
      (dict_set english ijaw (common_phrases categories))
      (complete_sentences categories)
  else
    mkCategories
      (greetings_and_politeness categories) (basic_words categories)
      (common_phrases categories)
      (dict_set english ijaw (complete_sentences categories)).

Definition categorize_entries (dictionary : list (string * string))
  : Categories :=
  fold_left categorize_entry dictionary (mkCategories [] [] [] []).

(** The sort key of [sort_categories]: [lambda x: x[0].lower()]. *)
Definition sort_key (item : string * string) : string := lower item.1.

(** [sorted(items, key=sort_key)]: the sort is stable, an item goes
    behind the items whose key is not greater than its own. *)
Fixpoint insert_by_key (x : string * string) (l : list (string * string))
  : list (string * string) :=
  match l with
  | [] => [x]
  | y :: l' =>
      if String.ltb (sort_key x) (sort_key y) then x :: l
      else y :: insert_by_key x l'
  end.

Definition sorted (items : list (string * string))
  : list (string * string) :=
  fold_left (λ acc x, insert_by_key x acc) items [].

Definition sort_categories (categories : Categories) : Categories :=
  mkCategories
    (dict_of_items (sorted (greetings_and_politeness categories)))
    (dict_of_items (sorted (basic_words categories)))
    (dict_of_items (sorted (common_phrases categories)))
    (dict_of_items (sorted (complete_sentences categories))).

(** The four categories are always present in [sorted_categories], so the
    test [category in sorted_categories] is left out. *)
Definition create_organized_dictionary (sorted_categories : Categories)
  : list (string * string) :=
  let organized_dict := [] in
  let organized_dict :=
    dict_update organized_dict (greetings_and_politeness sorted_categories) in
  let organized_dict :=
    dict_update organized_dict (basic_words sorted_categories) in
  let organized_dict :=
    dict_update organized_dict (common_phrases sorted_categories) in
  dict_update organized_dict (complete_sentences sorted_categories).

(** What [main] computes between loading and saving. *)
Definition organize (dictionary : list (string * string))
  : list (string * string) :=
  create_organized_dictionary (sort_categories (categorize_entries dictionary)).

(** The category an English key falls in. *)
Inductive Category : Type :=
  | Greeting
  | BasicWord
  | CommonPhrase
  | CompleteSentence.

#[global] Instance Category_eq_dec : EqDecision Category.
Proof. solve_decision. Defined.

Definition category_of (english : string) : Category :=
  if in_list (strip (lower english)) greetings then Greeting
  else if (List.length (split english) =? 1)%nat then BasicWord
  else if (List.length (split english) <=? 4)%nat
          && negb (endswith english ".") && negb (endswith english "?")
  then CommonPhrase
  else CompleteSentence.

(** The items of a dictionary whose key falls in a category, in order. *)
Definition select (c : Category) (d : list (string * string))
  : list (string * string) :=
  List.filter (λ item, bool_decide (category_of item.1 = c)) d.

(** The order of [sort_categories]: by lower-cased key. *)
Definition key_le (x y : string * string) : Prop :=
  String.leb (sort_key x) (sort_key y) = true.

(** ** Vocabulary of the properties *)

(** The tokens of the loop of [parse_sentence]. *)
Definition tokens (sentence : string) : list string :=
  split (strip (lower sentence)).

(** A call returns normally. *)
Definition returns {A : Type} (r : result A) : Prop := ∃ a, r = Ok a.

(** The slot read by [slot] is first-match-wins on [sentence]: the value it
    holds after any prefix of the tokens is the value the parse returns. *)
Definition first_match_wins (slot : Parsed → option string)
           (sentence : string) : Prop :=
  ∀ (ws1 ws2 : list string) (w : string),
    tokens sentence = (ws1 ++ ws2)%list →
    slot (parse_loop ws1 parsed_init) = Some w →
    slot (parse_sentence sentence) = Some w.

(** First-match-wins for the six slots the token loop fills. *)
Definition slot_exclusivity (sentence : string) : Prop :=
  first_match_wins subject sentence ∧ first_match_wins object sentence ∧
  first_match_wins verb sentence ∧ first_match_wins adjective sentence ∧
  first_match_wins location sentence ∧ first_match_wins time sentence.

(** The conditions under which each rule of the cascade returns. *)
Definition phrase_rule (dictionary : gmap string string)
           (sentence : string) : bool :=
  contains dictionary (strip (lower sentence)).

Definition question_rule (parsed : Parsed) : bool :=
  slot_eqb (question_type parsed) "how_are"
  || slot_eqb (question_type parsed) "where" && truthy (object parsed)
  || slot_eqb (question_type parsed) "do_you_have" && truthy (object parsed).

Definition slot_rule (parsed : Parsed) : bool :=
  truthy (subject parsed) && truthy (adjective parsed)
  || truthy (subject parsed) && truthy (object parsed) && truthy (verb parsed)
  || truthy (subject parsed) && truthy (verb parsed).

Definition possessive_rule (sentence : string) : bool :=
  match tokens sentence with
  | w0 :: _ :: _ => in_list w0 POSSESSIVES
  | _ => false
  end.

Definition no_rule_matches (dictionary : gmap string string)
           (sentence : string) : bool :=
  negb (phrase_rule dictionary sentence)
  && negb (question_rule (parse_sentence sentence))
  && negb (slot_rule (parse_sentence sentence))
  && negb (possessive_rule sentence).

(** Every slot holds a token of the sentence, or nothing. *)
Definition slots_from (ws : list string) (p : Parsed) : Prop :=
  ∀ slot, In slot [subject; object; verb; adjective; location; time] →
          ∀ w, slot p = Some w → In w ws.

(** What the token loop stores in each slot: the kind of token. *)
Definition slots_typed (p : Parsed) : Prop :=
  (∀ x, subject p = Some x →
        classify_word x = PRONOUN ∧ in_list x POSSESSIVES = false) ∧
  (∀ x, verb p = Some x → classify_word x = VERB) ∧
  (∀ x, object p = Some x → classify_word x = NOUN) ∧
  (∀ x, adjective p = Some x → classify_word x = ADJECTIVE) ∧
  (∀ x, location p = Some x →
        classify_word x = NOUN ∧ in_list x PLACES = true) ∧
  (∀ x, time p = Some x → in_list x TIMES = true).

(** ** Strings and slots *)

Lemma extend_first_nonempty c l :
  Forall (λ w, w ≠ "") l → Forall (λ w, w ≠ "") (extend_first c l).
Proof.
  destruct l as [|t ts]; simpl; intros H.
  - constructor; [discriminate | constructor].
  - inversion H; subst. constructor; [discriminate | assumption].
Qed.

Lemma split_nonempty s : Forall (λ w, w ≠ "") (split s).
Proof.
  induction s as [|c s IH]; simpl; [constructor|].
  destruct (is_space c); [exact IH|].
  destruct s as [|c' s']; [constructor; [discriminate | constructor]|].
  destruct (is_space c').
  - constructor; [discriminate | exact IH].
  - apply extend_first_nonempty, IH.
Qed.

Lemma truthy_Some w : w ≠ "" → truthy (Some w) = true.
Proof.
  intros H. simpl. destruct (String.eqb_spec w ""); [contradiction | reflexivity].
Qed.

Lemma truthy_inv o : truthy o = true → ∃ w, o = Some w ∧ w ≠ "".
Proof.
  destruct o as [w|]; simpl; [|discriminate].
  destruct (String.eqb_spec w ""); [discriminate|]. eauto.
Qed.

Lemma in_list_In w l : in_list w l = true ↔ In w l.
Proof.
  unfold in_list. rewrite existsb_exists. split.
  - intros (x & Hx & Heq). apply String.eqb_eq in Heq. by subst.
  - intros H. exists w. split; [done | apply String.eqb_refl].
Qed.

(** ** The token loop *)

(** Reduces the slot projections of an updated parse. *)
Ltac slots_cbn :=
  cbn [subject object verb adjective preposition location time question_type
       set_subject set_object set_verb set_adjective set_location set_time
       set_question_type] in *.

(** Splits the goal along the tests of [parse_step]; the type of the word
    is kept as [ty], with its equation. *)
Ltac step_cases :=
  unfold parse_step;
  match goal with
  | |- context [classify_word ?w] =>
      let ty := fresh "ty" in
      let Hty := fresh "Hty" in
      remember (classify_word w) as ty eqn:Hty
  end;
  cbv zeta;
  repeat match goal with
         | |- context [if ?b then _ else _] => destruct b eqn:?
         end;
  slots_cbn.

Ltac split_tests :=
  repeat match goal with
         | H : (_ && _) = true |- _ => apply andb_true_iff in H; destruct H
         | H : negb _ = true |- _ => apply negb_true_iff in H
         | H : negb _ = false |- _ => apply negb_false_iff in H
         | H : bool_decide _ = true |- _ => apply bool_decide_eq_true in H
         end.

Lemma parse_step_keeps_subject p w :
  truthy (subject p) = true → subject (parse_step p w) = subject p.
Proof. intros H. step_cases; split_tests; congruence. Qed.

Lemma parse_step_keeps_object p w :
  truthy (object p) = true → object (parse_step p w) = object p.
Proof. intros H. step_cases; split_tests; congruence. Qed.

Lemma parse_step_keeps_verb p w :
  truthy (verb p) = true → verb (parse_step p w) = verb p.
Proof. intros H. step_cases; split_tests; congruence. Qed.

Lemma parse_step_keeps_adjective p w :
  truthy (adjective p) = true → adjective (parse_step p w) = adjective p.
Proof. intros H. step_cases; split_tests; congruence. Qed.

Lemma parse_step_question_type p w :
  question_type (parse_step p w) = question_type p.
Proof. step_cases; reflexivity. Qed.

Lemma parse_loop_app ws1 ws2 p :
  parse_loop (ws1 ++ ws2)%list p = parse_loop ws2 (parse_loop ws1 p).
Proof. apply fold_left_app. Qed.

Lemma parse_loop_keeps (slot : Parsed → option string) :
  (∀ p w, truthy (slot p) = true → slot (parse_step p w) = slot p) →
  ∀ ws p, truthy (slot p) = true → slot (parse_loop ws p) = slot p.
Proof.
  intros Hstep ws. induction ws as [|w ws IH]; intros p Hp; [reflexivity|].
  simpl. rewrite IH; rewrite Hstep; auto.
Qed.

Lemma parse_loop_question_type ws p :
  question_type (parse_loop ws p) = question_type p.
Proof.
  revert p. induction ws as [|w ws IH]; intros p; [reflexivity|].
  simpl. rewrite IH. apply parse_step_question_type.
Qed.

Lemma parse_step_slots_from ws p w :
  slots_from ws p → slots_from (ws ++ [w])%list (parse_step p w).
Proof.
  intros Hp slot Hslot v Hv.
  assert (Hold : ∀ v', slot p = Some v' → In v' (ws ++ [w])%list).
  { intros v' Hv'. apply in_or_app. left. by apply (Hp slot). }
  assert (Hnew : In w (ws ++ [w])%list).
  { apply in_or_app. right. by left. }
  simpl in Hslot.
  revert Hv. step_cases;
    (destruct Hslot as [<-|[<-|[<-|[<-|[<-|[<-|[]]]]]]]; simpl;
     intros Hv; first [ by apply Hold | by simplify_eq ]).
Qed.

Lemma parse_loop_slots_from ws : ∀ done p,
  slots_from done p → slots_from (done ++ ws)%list (parse_loop ws p).
Proof.
  induction ws as [|w ws IH]; intros done p Hp; simpl.
  - by rewrite app_nil_r.
  - replace (done ++ w :: ws)%list with ((done ++ [w]) ++ ws)%list
      by (by rewrite <- app_assoc).
    apply IH, parse_step_slots_from, Hp.
Qed.

Lemma slots_from_init : slots_from [] parsed_init.
Proof.
  intros slot Hslot w. simpl in Hslot.
  destruct Hslot as [<-|[<-|[<-|[<-|[<-|[<-|[]]]]]]]; discriminate.
Qed.

Lemma detect_question_slots sentence p :
  let q := detect_question sentence p in
  subject q = subject p ∧ object q = object p ∧ verb q = verb p ∧
  adjective q = adjective p ∧ location q = location p ∧ time q = time p.
Proof.
  unfold detect_question.
  repeat match goal with
         | |- context [if ?b then _ else _] => destruct b
         end; slots_cbn; auto 10.
Qed.

(** A slot that keeps a true value through one token keeps the value it
    has after a prefix of the tokens until the parse returns. *)
Lemma first_match_wins_of_keeps (slot : Parsed → option string) sentence :
  In slot [subject; object; verb; adjective; location; time] →
  (∀ p, slot (detect_question sentence p) = slot p) →
  (∀ p w, truthy (slot p) = true → slot (parse_step p w) = slot p) →
  first_match_wins slot sentence.
Proof.
  intros Hslot Hq Hstep ws1 ws2 w Hws Hw.
  unfold parse_sentence. fold (tokens sentence).
  rewrite Hq, Hws, parse_loop_app.
  rewrite parse_loop_keeps; auto.
  rewrite Hw. apply truthy_Some.
  assert (Hin : In w (tokens sentence)).
  { rewrite Hws. apply in_or_app. left.
    apply (parse_loop_slots_from ws1 [] parsed_init slots_from_init slot Hslot).
    exact Hw. }
  pose proof (split_nonempty (strip (lower sentence))) as Hne.
  rewrite List.Forall_forall in Hne. by apply Hne.
Qed.

(** The temporal words and the place nouns are not guarded: the loop
    stores each of them when it meets it. *)
Lemma parse_step_time p w :
  in_list w TIMES = true → time (parse_step p w) = Some w.
Proof.
  intros H. apply in_list_In in H. simpl in H.
  destruct H as [<-|[<-|[<-|[<-|[<-|[]]]]]]; reflexivity.
Qed.

Lemma parse_step_location p w :
  in_list w PLACES = true → truthy (object p) = true →
  location (parse_step p w) = Some w.
Proof.
  intros H Ho. apply in_list_In in H. simpl in H.
  destruct H as [<-|[<-|[<-|[<-|[<-|[]]]]]];
    unfold parse_step; rewrite Ho;
    match goal with
    | |- context [classify_word ?x] =>
        change (classify_word x) with NOUN
    end; reflexivity.
Qed.

(** ** Slot exclusivity *)

(** C3, as stated, fails: in "she sees fish house market" the location slot
    holds "house" after four tokens and "market" when the parse returns. *)
Lemma slot_exclusivity_fails :
  ¬ slot_exclusivity "she sees fish house market".
Proof.
  intros (_ & _ & _ & _ & Hloc & _).
  specialize (Hloc ["she"; "sees"; "fish"; "house"] ["market"] "house"
                eq_refl eq_refl).
  vm_compute in Hloc. discriminate.
Qed.

(** C3, amended: the subject, object, verb and adjective slots are assigned
    at most once in a parse (the value one of them holds after a prefix of
    the tokens is the value [parse_sentence] returns); the time and location
    slots are not guarded, a temporal word is always stored in [time] and a
    place noun met when the object is filled is always stored in
    [location]. *)
Theorem guarded_slots_first_match_wins (sentence : string) :
  (first_match_wins subject sentence ∧ first_match_wins object sentence ∧
   first_match_wins verb sentence ∧ first_match_wins adjective sentence) ∧
  (∀ p w, in_list w TIMES = true → time (parse_step p w) = Some w) ∧
  (∀ p w, in_list w PLACES = true → truthy (object p) = true →
          location (parse_step p w) = Some w).
Proof.
  pose proof (detect_question_slots sentence) as Hq. cbv zeta in Hq.
  split; [|split; [exact parse_step_time | exact parse_step_location]].
  repeat split.
  - apply first_match_wins_of_keeps;
      [ left; reflexivity | intros p; apply Hq
      | apply parse_step_keeps_subject ].
  - apply first_match_wins_of_keeps;
      [ right; left; reflexivity | intros p; apply Hq
      | apply parse_step_keeps_object ].
  - apply first_match_wins_of_keeps;
      [ do 2 right; left; reflexivity | intros p; apply Hq
      | apply parse_step_keeps_verb ].
  - apply first_match_wins_of_keeps;
      [ do 3 right; left; reflexivity | intros p; apply Hq
      | apply parse_step_keeps_adjective ].
Qed.

Lemma guarded_slots_first_match_wins_witness :
  subject (parse_sentence "she sees fish house market") = Some "she" ∧
  time (parse_step parsed_init "today") = Some "today" ∧
  location (parse_step (parse_loop ["fish"; "house"] parsed_init) "market")
  = Some "market".
Proof.
  destruct (guarded_slots_first_match_wins "she sees fish house market")
    as ((Hs & _) & Ht & Hl).
  split; [|split].
  - apply (Hs ["she"] ["sees"; "fish"; "house"; "market"] "she");
      reflexivity.
  - apply Ht. reflexivity.
  - apply Hl; reflexivity.
Defined.

(** ** Possessive exclusion *)

Lemma parse_step_subject_not_possessive p w :
  (∀ x, subject p = Some x → in_list x POSSESSIVES = false) →
  ∀ x, subject (parse_step p w) = Some x → in_list x POSSESSIVES = false.
Proof.
  intros Hp x. step_cases; split_tests; intros Hx;
    first [ by apply Hp | by simplify_eq ].
Qed.

Lemma parse_loop_subject_not_possessive ws : ∀ p,
  (∀ x, subject p = Some x → in_list x POSSESSIVES = false) →
  ∀ x, subject (parse_loop ws p) = Some x → in_list x POSSESSIVES = false.
Proof.
  induction ws as [|w ws IH]; intros p Hp; [exact Hp|].
  simpl. apply IH, parse_step_subject_not_possessive, Hp.
Qed.

Lemma parse_sentence_subject_not_possessive sentence x :
  subject (parse_sentence sentence) = Some x →
  in_list x POSSESSIVES = false.
Proof.
  unfold parse_sentence.
  destruct (detect_question_slots sentence
              (parse_loop (split (strip (lower sentence))) parsed_init))
    as (-> & _).
  apply parse_loop_subject_not_possessive. discriminate.
Qed.

(** C6: when the first token of a sentence is one of my, your, his, her,
    our, their, [parse_sentence] does not put that token in the subject
    slot. *)
Theorem possessive_first_token_not_subject (sentence w : string)
        (ws : list string) :
  tokens sentence = w :: ws →
  In w POSSESSIVES →
  subject (parse_sentence sentence) ≠ Some w.
Proof.
  intros _ Hw Hs. apply in_list_In in Hw.
  apply parse_sentence_subject_not_possessive in Hs. congruence.
Qed.

Lemma possessive_first_token_not_subject_witness :
  subject (parse_sentence "Her friend likes fish") ≠ Some "her".
Proof.
  apply (possessive_first_token_not_subject
           "Her friend likes fish" "her" ["friend"; "likes"; "fish"]).
  - reflexivity.
  - simpl. auto.
Defined.

(** ** Location needs an object *)

Lemma parse_step_location_object p w :
  (location p ≠ None → truthy (object p) = true) →
  location (parse_step p w) ≠ None → truthy (object (parse_step p w)) = true.
Proof.
  intros Hp. step_cases; split_tests; intros Hl;
    first [ by apply Hp | assumption | specialize (Hp Hl); congruence ].
Qed.

Lemma parse_step_object_noun p w :
  (∀ o, object p = Some o → classify_word o = NOUN) →
  ∀ o, object (parse_step p w) = Some o → classify_word o = NOUN.
Proof.
  intros Hp o. step_cases; split_tests; intros Ho;
    first [ by apply Hp | by simplify_eq ].
Qed.

Lemma parse_loop_location_object ws : ∀ p,
  (location p ≠ None → truthy (object p) = true) →
  (∀ o, object p = Some o → classify_word o = NOUN) →
  (location (parse_loop ws p) ≠ None →
   truthy (object (parse_loop ws p)) = true) ∧
  (∀ o, object (parse_loop ws p) = Some o → classify_word o = NOUN).
Proof.
  induction ws as [|w ws IH]; intros p Hl Ho; [by split|].
  simpl. apply IH.
  - by apply parse_step_location_object.
  - by apply parse_step_object_noun.
Qed.

(** C9: in the slots [parse_sentence] returns, a filled location comes with
    a filled object, which is a noun among the tokens of the sentence; and
    a token changes the location slot only when the object slot is already
    filled. *)
Theorem location_implies_object (sentence : string) :
  (location (parse_sentence sentence) ≠ None →
   ∃ o, object (parse_sentence sentence) = Some o ∧ o ≠ "" ∧
        classify_word o = NOUN ∧ In o (tokens sentence)) ∧
  (∀ p w, location (parse_step p w) ≠ location p →
          truthy (object p) = true).
Proof.
  split.
  - unfold parse_sentence. fold (tokens sentence).
    destruct (detect_question_slots sentence
                (parse_loop (tokens sentence) parsed_init))
      as (_ & -> & _ & _ & -> & _).
    intros Hl.
    destruct (parse_loop_location_object (tokens sentence) parsed_init)
      as [Hobj Hnoun]; [done | discriminate |].
    destruct (truthy_inv _ (Hobj Hl)) as (o & Ho & Hne).
    exists o. repeat split; auto.
    apply (parse_loop_slots_from (tokens sentence) [] parsed_init
             slots_from_init object); [simpl; auto | exact Ho].
  - intros p w. step_cases; split_tests; intros Hl;
      first [ congruence | done ].
Qed.

Lemma location_implies_object_witness :
  ∃ o, object (parse_sentence "she sees fish house market") = Some o ∧
       o ≠ "" ∧ classify_word o = NOUN ∧
       In o (tokens "she sees fish house market").
Proof.
  apply (proj1 (location_implies_object "she sees fish house market")).
  vm_compute. discriminate.
Defined.

(** ** Question detection *)

(** C10: a sentence that does not itself start with "where", "how are" or
    "do you have", in lower case, gets no question type, whatever its
    lower-cased form starts with. *)
Theorem question_type_case_sensitive (sentence : string) :
  startswith sentence "where" = false →
  startswith sentence "how are" = false →
  startswith sentence "do you have" = false →
  question_type (parse_sentence sentence) = None.
Proof.
  intros H1 H2 H3. unfold parse_sentence, detect_question.
  rewrite H1, H2, H3. apply parse_loop_question_type.
Qed.

Lemma question_type_case_sensitive_witness :
  startswith (lower "Where is the river?") "where" = true ∧
  question_type (parse_sentence "Where is the river?") = None.
Proof.
  split; [reflexivity|].
  apply question_type_case_sensitive; reflexivity.
Defined.

(** ** The cascade returns *)

Lemma contains_subscript d k :
  contains d k = true → ∃ v, d !! k = Some v ∧ subscript d k = Ok v.
Proof.
  unfold contains, subscript. destruct (d !! k) as [v|]; [eauto | discriminate].
Qed.

Lemma translate_word_returns d w : returns (translate_word d w).
Proof.
  unfold translate_word, returns. cbv zeta.
  repeat match goal with
         | |- context [if contains ?m ?k then _ else _] =>
             let H := fresh "H" in
             destruct (contains m k) eqn:H;
             [ destruct (contains_subscript m k H) as (v & _ & ->); eauto |]
         end.
  eauto.
Qed.

Lemma mapM_translate_word d ws :
  ∃ ts, mapM (translate_word d) ws = Ok ts ∧
        Forall2 (λ w t, translate_word d w = Ok t) ws ts.
Proof.
  induction ws as [|w ws (ts & Hts & Hall)]; simpl.
  - exists []. split; [reflexivity | constructor].
  - destruct (translate_word_returns d w) as [t Ht].
    exists (t :: ts). rewrite Ht, Hts. split; [reflexivity|].
    by constructor.
Qed.

#[local] Arguments mapM : simpl never.

Lemma mapM_translate_word_returns d ws :
  returns (mapM (translate_word d) ws).
Proof. destruct (mapM_translate_word d ws) as (ts & -> & _). by exists ts. Qed.

Lemma returns_Ok {A} (a : A) : returns (Ok a).
Proof. by exists a. Qed.

Lemma returns_bind {A B} (m : result A) (f : A → result B) :
  returns m → (∀ a, returns (f a)) → returns (m ≫= f).
Proof. intros [a ->] Hf. apply Hf. Qed.

Lemma returns_bind_Ok {A B} (a : A) (f : A → result B) :
  returns (f a) → returns (Ok a ≫= f).
Proof. exact id. Qed.

(** Follows one more step of a call: a value, a translated word, a
    translated list, a test, or a sequence. *)
Ltac returns_step :=
  lazymatch goal with
  | |- returns (Ok _) => apply returns_Ok
  | |- returns (Ok _ ≫= _) => apply returns_bind_Ok; cbv beta iota
  | |- returns (translate_word _ _) => apply translate_word_returns
  | |- returns (mapM (translate_word _) _) =>
      apply mapM_translate_word_returns
  | |- returns (if ?b then _ else _) => destruct b eqn:?
  | |- returns ((if ?b then _ else _) ≫= _) => destruct b eqn:?
  | |- returns (_ ≫= _) => apply returns_bind; [|intros ?; cbv beta]
  end.

Ltac returns_tac := simpl; repeat returns_step.

Lemma fallback_returns d sentence : returns (fallback d sentence).
Proof. unfold fallback. returns_tac. Qed.

Lemma possessive_patterns_returns d sentence sentence_lower :
  returns (possessive_patterns d sentence sentence_lower).
Proof.
  pose proof (fallback_returns d sentence) as Hf.
  unfold possessive_patterns. cbv zeta.
  destruct (split sentence_lower) as [|w0 [|w1 [|w2 [|w3 [|w4 ws]]]]];
    simpl; try exact Hf;
    (destruct (in_list w0 POSSESSIVES); [|exact Hf]);
    returns_tac.
Qed.

(** Turns the true slots among the hypotheses into the words they hold. *)
Ltac use_truthy :=
  split_tests;
  repeat match goal with
         | H : truthy _ = true |- _ => apply truthy_inv in H as (? & -> & _)
         end.

Lemma statement_patterns_returns d sentence sentence_lower parsed :
  returns (statement_patterns d sentence sentence_lower parsed).
Proof.
  pose proof (possessive_patterns_returns d sentence sentence_lower) as Hp.
  unfold statement_patterns.
  destruct parsed as [s o v a pr l t q]; slots_cbn.
  repeat first
    [ exact Hp
    | lazymatch goal with
      | |- returns (if ?b then _ else _) =>
          destruct b eqn:?; use_truthy; cbn [translate_slot]
      end
    | returns_step ].
Qed.

Lemma question_patterns_returns d sentence sentence_lower parsed :
  returns (question_patterns d sentence sentence_lower parsed).
Proof.
  pose proof (statement_patterns_returns d sentence sentence_lower parsed)
    as Hs.
  unfold question_patterns.
  destruct (slot_eqb (question_type parsed) "how_are");
    [apply returns_Ok|].
  destruct (slot_eqb (question_type parsed) "where" && truthy (object parsed))
    eqn:Hw.
  { apply andb_true_iff in Hw as [_ Hw].
    destruct (truthy_inv _ Hw) as (w & -> & _). returns_tac. }
  destruct (slot_eqb (question_type parsed) "do_you_have"
            && truthy (object parsed)) eqn:Hd; [|exact Hs].
  apply andb_true_iff in Hd as [_ Hd].
  destruct (truthy_inv _ Hd) as (w & -> & _). returns_tac.
Qed.

(** ** The phrase dictionary comes first *)

(** C1: when the lower-cased, stripped sentence is a key of the phrase
    dictionary, [generate_translation] returns the value stored under that
    key, whatever the parse of the sentence is. *)
Theorem phrase_dictionary_overrides (d : gmap string string)
        (sentence v : string) :
  d !! strip (lower sentence) = Some v →
  generate_translation d sentence = Ok v.
Proof.
  intros H. unfold generate_translation, contains, subscript. cbv zeta.
  by rewrite H.
Qed.

Lemma phrase_dictionary_overrides_witness :
  generate_translation {[ "she goes home" := "A wárị gha" ]} " She goes HOME "
  = Ok "A wárị gha".
Proof.
  apply phrase_dictionary_overrides. vm_compute. reflexivity.
Defined.

(** ** Totality *)

Lemma generate_translation_returns d sentence :
  returns (generate_translation d sentence).
Proof.
  unfold generate_translation. cbv zeta.
  destruct (contains d (strip (lower sentence))) eqn:H.
  - destruct (contains_subscript _ _ H) as (v & _ & ->). apply returns_Ok.
  - apply question_patterns_returns.
Qed.

(** C2: [generate_translation] returns a string on every sentence, without
    raising, and returns the empty string on the empty sentence when the
    empty string is not a key of the phrase dictionary. *)
Theorem generate_translation_total (d : gmap string string)
        (sentence : string) :
  (∃ t, generate_translation d sentence = Ok t) ∧
  (d !! "" = None → generate_translation d "" = Ok "").
Proof.
  split; [apply generate_translation_returns|].
  intros H. unfold generate_translation, contains. cbv zeta.
  change (strip (lower "")) with "". rewrite H. reflexivity.
Qed.

Lemma generate_translation_total_witness :
  (∃ t, generate_translation ∅ "?! ..." = Ok t) ∧
  generate_translation ∅ "" = Ok "".
Proof.
  destruct (generate_translation_total ∅ "?! ...") as [Ht He].
  split; [exact Ht | apply He; reflexivity].
Defined.

(** ** The word-by-word fallback *)

Lemma question_patterns_skip d sentence sentence_lower parsed :
  question_rule parsed = false →
  question_patterns d sentence sentence_lower parsed
  = statement_patterns d sentence sentence_lower parsed.
Proof.
  unfold question_rule, question_patterns. intros H.
  apply orb_false_iff in H as [H H3]. apply orb_false_iff in H as [H1 H2].
  by rewrite H1, H2, H3.
Qed.

Lemma statement_patterns_skip d sentence sentence_lower parsed :
  slot_rule parsed = false →
  statement_patterns d sentence sentence_lower parsed
  = possessive_patterns d sentence sentence_lower.
Proof.
  unfold slot_rule, statement_patterns. intros H.
  apply orb_false_iff in H as [H H3]. apply orb_false_iff in H as [H1 H2].
  by rewrite H1, H2, H3.
Qed.

Lemma possessive_patterns_skip d sentence :
  possessive_rule sentence = false →
  possessive_patterns d sentence (strip (lower sentence))
  = fallback d sentence.
Proof.
  unfold possessive_rule, possessive_patterns, tokens. cbv zeta.
  destruct (split (strip (lower sentence))) as [|w0 [|w1 ws]];
    try reflexivity.
  intros H. cbn [List.length Nat.leb index lookup list_lookup].
  change (Ok w0 ≫= ?f) with (f w0). cbv beta. by rewrite H.
Qed.

(** C7: when no rule of the cascade matches (the sentence is no key of the
    phrase dictionary, no question template, no slot template and no
    possessive pattern applies), [generate_translation] returns the tokens
    of the sentence as written, each one translated by [translate_word],
    in their order and number, joined by single spaces. *)
Theorem fallback_when_no_rule_matches (d : gmap string string)
        (sentence : string) :
  no_rule_matches d sentence = true →
  ∃ ts : list string,
    Forall2 (λ w t, translate_word d w = Ok t) (split sentence) ts ∧
    List.length ts = List.length (split sentence) ∧
    generate_translation d sentence = Ok (join " " ts).
Proof.
  unfold no_rule_matches, phrase_rule. intros H. split_tests.
  destruct (mapM_translate_word d (split sentence)) as (ts & Hts & Hall).
  exists ts. split; [exact Hall|]. split.
  { symmetry. eapply Forall2_length, Hall. }
  unfold generate_translation. cbv zeta.
  match goal with H : contains _ _ = false |- _ => rewrite H end.
  rewrite question_patterns_skip, statement_patterns_skip,
    possessive_patterns_skip by assumption.
  unfold fallback. cbv zeta. by rewrite Hts.
Qed.

Lemma fallback_when_no_rule_matches_witness :
  ∃ ts : list string,
    Forall2 (λ w t, translate_word ∅ w = Ok t)
            (split "The  Fish is here") ts ∧
    List.length ts = List.length (split "The  Fish is here") ∧
    generate_translation ∅ "The  Fish is here" = Ok (join " " ts).
Proof.
  apply fallback_when_no_rule_matches. vm_compute. reflexivity.
Defined.

(** ** The scenarios of the specification *)

(** C8: on "she goes home" (not a phrase of the dictionary) the parse has
    subject "she" and verb "goes", no object and no location, and
    [generate_translation] returns the translation of "she", a space, and
    the translation of "goes". *)
Theorem she_goes_home (d : gmap string string) :
  d !! "she goes home" = None →
  subject (parse_sentence "she goes home") = Some "she" ∧
  verb (parse_sentence "she goes home") = Some "goes" ∧
  object (parse_sentence "she goes home") = None ∧
  location (parse_sentence "she goes home") = None ∧
  ∃ subj verb_t : string,
    translate_word d "she" = Ok subj ∧
    translate_word d "goes" = Ok verb_t ∧
    generate_translation d "she goes home" = Ok (subj ++ " " ++ verb_t).
Proof.
  intros H. repeat (split; [vm_compute; reflexivity|]).
  destruct (translate_word_returns d "she") as [subj Hs].
  destruct (translate_word_returns d "goes") as [verb_t Hv].
  exists subj, verb_t. repeat (split; [assumption|]).
  unfold generate_translation, contains. cbv zeta.
  change (strip (lower "she goes home")) with "she goes home". rewrite H.
  replace (parse_sentence "she goes home")
    with (mkParsed (Some "she") None (Some "goes") None None None None None)
    by (vm_compute; reflexivity).
  rewrite question_patterns_skip by reflexivity.
  unfold statement_patterns. slots_cbn. cbn [truthy translate_slot].
  change (negb ("she" =? "")) with true.
  change (negb ("goes" =? "")) with true.
  cbn [andb]. rewrite Hs, Hv. reflexivity.
Qed.

Lemma she_goes_home_witness :
  generate_translation ∅ "she goes home" = Ok "A gha".
Proof.
  destruct (she_goes_home ∅)
    as (_ & _ & _ & _ & subj & verb_t & Hs & Hv & Hg);
    [vm_compute; reflexivity|].
  vm_compute in Hs, Hv. injection Hs as <-. injection Hv as <-. exact Hg.
Defined.

(** C4, on the code: in "I am happy" the token "i" is no pronoun for
    [classify_word] (the pronoun table has the key "I", and the lookup is
    in lower case), so the subject slot stays empty while the adjective slot
    holds "happy"; with an empty phrase dictionary [generate_translation]
    returns the word-by-word "I ye hapi", where the Subject+Adjective
    template would give "i hapi ye". *)
Theorem i_am_happy_has_no_subject :
  classify_word "i" = UNKNOWN ∧
  subject (parse_sentence "I am happy") = None ∧
  adjective (parse_sentence "I am happy") = Some "happy" ∧
  generate_translation ∅ "I am happy" = Ok "I ye hapi" ∧
  translate_word ∅ "i" = Ok "i" ∧
  translate_word ∅ "happy" = Ok "hapi".
Proof. vm_compute. repeat split; reflexivity. Qed.

(** C5, on the code: in "where is the river?" the last token is "river?",
    which is no noun for [classify_word], so the question type is "where"
    but the object slot stays empty; with an empty phrase dictionary
    [generate_translation] returns the word-by-word "where ye the river?",
    where the where-question template would give the translation of
    "river" followed by " kí ye?". *)
Theorem where_is_the_river_has_no_object :
  tokens "where is the river?" = ["where"; "is"; "the"; "river?"] ∧
  classify_word "river?" = UNKNOWN ∧
  question_type (parse_sentence "where is the river?") = Some "where" ∧
  object (parse_sentence "where is the river?") = None ∧
  generate_translation ∅ "where is the river?" = Ok "where ye the river?" ∧
  translate_word ∅ "river" = Ok "ọ́wụ".
Proof. vm_compute. repeat split; reflexivity. Qed.

(** * Further properties of the engine *)

(** ** Case and white space *)

Lemma lower_char_idem c : lower_char (lower_char c) = lower_char c.
Proof. destruct c as [[] [] [] [] [] [] [] []]; reflexivity. Qed.

Lemma is_space_lower_char c : is_space (lower_char c) = is_space c.
Proof. destruct c as [[] [] [] [] [] [] [] []]; reflexivity. Qed.

Lemma lower_idem s : lower (lower s) = lower s.
Proof.
  induction s as [|c s IH]; simpl; [reflexivity|].
  by rewrite lower_char_idem, IH.
Qed.

Lemma lower_lstrip s : lower (lstrip s) = lstrip (lower s).
Proof.
  induction s as [|c s IH]; simpl; [reflexivity|].
  rewrite is_space_lower_char. by destruct (is_space c).
Qed.

Lemma lower_rstrip s : lower (rstrip s) = rstrip (lower s).
Proof.
  induction s as [|c s IH]; simpl; [reflexivity|].
  rewrite <- IH, is_space_lower_char.
  destruct (rstrip s); simpl; [by destruct (is_space c) | reflexivity].
Qed.

Lemma lower_strip s : lower (strip s) = strip (lower s).
Proof. unfold strip. by rewrite lower_rstrip, lower_lstrip. Qed.

Lemma lower_not_I w : lower w ≠ "I".
Proof.
  intros H. assert (H' : lower (lower w) = lower "I") by (by rewrite H).
  rewrite lower_idem, H in H'. discriminate.
Qed.

(** ** The role tables *)

Lemma contains_list_to_map items k :
  contains (list_to_map items) k = true → ∃ v, In (k, v) items.
Proof.
  unfold contains.
  destruct (list_to_map items !! k) as [v|] eqn:H; [|discriminate].
  intros _. exists v. apply list_elem_of_In.
  by apply (elem_of_list_to_map_2 (M := gmap string)).
Qed.

(** A test that holds for the keys of [items] holds for every word found
    in the table built from them. *)
Lemma table_keys (f : string → bool) items k :
  forallb (λ kv, f kv.1) items = true →
  contains (list_to_map items) k = true → f k = true.
Proof.
  intros Hall Hk. destruct (contains_list_to_map _ _ Hk) as [v Hv].
  rewrite forallb_forall in Hall. apply (Hall _ Hv).
Qed.

Lemma in_list_keys (f : string → bool) l k :
  forallb f l = true → in_list k l = true → f k = true.
Proof.
  intros Hall Hk. apply in_list_In in Hk.
  rewrite forallb_forall in Hall. by apply Hall.
Qed.

(** The four tables and the two closed lists have no word in common. *)
Lemma tables_disjoint k :
  (contains verbs k = true → contains pronouns k = false) ∧
  (contains nouns k = true →
   contains pronouns k = false ∧ contains verbs k = false) ∧
  (contains adjectives k = true →
   contains pronouns k = false ∧ contains verbs k = false ∧
   contains nouns k = false) ∧
  (in_list k DETERMINERS = true →
   contains pronouns k = false ∧ contains verbs k = false ∧
   contains nouns k = false ∧ contains adjectives k = false) ∧
  (in_list k PREPOSITIONS = true →
   contains pronouns k = false ∧ contains verbs k = false ∧
   contains nouns k = false ∧ contains adjectives k = false ∧
   in_list k DETERMINERS = false).
Proof.
  repeat match goal with
         | |- _ ∧ _ => split
         | |- _ → _ => intros ?
         end;
    match goal with
    | H : _ = true |- in_list _ ?l = false =>
        apply negb_true_iff;
        revert H; apply (in_list_keys (λ x, negb (in_list x l)));
        vm_compute; reflexivity
    | H : contains _ _ = true |- contains ?m _ = false =>
        apply negb_true_iff;
        revert H; apply (table_keys (λ x, negb (contains m x)));
        vm_compute; reflexivity
    | H : in_list _ _ = true |- contains ?m _ = false =>
        apply negb_true_iff;
        revert H; apply (in_list_keys (λ x, negb (contains m x)));
        vm_compute; reflexivity
    end.
Qed.

(** X1: [classify_word] answers by table membership of the lower-cased
    word: since the tables and lists share no word, the order of the tests
    hides no entry.  It never answers SUBJECT or OBJECT. *)
Theorem classify_word_by_table (w : string) :
  (classify_word w = PRONOUN ↔ contains pronouns (lower w) = true) ∧
  (classify_word w = VERB ↔ contains verbs (lower w) = true) ∧
  (classify_word w = NOUN ↔ contains nouns (lower w) = true) ∧
  (classify_word w = ADJECTIVE ↔ contains adjectives (lower w) = true) ∧
  (classify_word w = DETERMINER ↔ in_list (lower w) DETERMINERS = true) ∧
  (classify_word w = PREPOSITION ↔ in_list (lower w) PREPOSITIONS = true) ∧
  classify_word w ≠ SUBJECT ∧ classify_word w ≠ OBJECT.
Proof.
  pose proof (tables_disjoint (lower w)) as H. revert H.
  unfold classify_word. cbv zeta.
  destruct (contains pronouns (lower w)), (contains verbs (lower w)),
    (contains nouns (lower w)), (contains adjectives (lower w)),
    (in_list (lower w) DETERMINERS), (in_list (lower w) PREPOSITIONS);
    intros (H1 & H2 & H3 & H4 & H5);
    repeat split; intros; try congruence; exfalso; intuition congruence.
Qed.

(** X2: [classify_word] does not look at the case of the word: words with
    the same lower-cased form are classified alike, and so are a word and
    its lower-cased form. *)
Theorem classify_word_ignores_case (w1 w2 : string) :
  (lower w1 = lower w2 → classify_word w1 = classify_word w2) ∧
  classify_word (lower w1) = classify_word w1.
Proof.
  split.
  - intros H. unfold classify_word. cbv zeta. by rewrite H.
  - unfold classify_word. cbv zeta. by rewrite lower_idem.
Qed.

Lemma classify_word_ignores_case_witness :
  classify_word "HOUSE" = classify_word "House".
Proof.
  apply (proj1 (classify_word_ignores_case "HOUSE" "House")). reflexivity.
Defined.

(** X3: the pronoun table has twelve keys, but the key "I" is in upper
    case and the lookup is made in lower case: a word classified PRONOUN
    is, lower-cased, one of the eleven other keys. *)
Theorem pronoun_key_I_unreachable (w : string) :
  classify_word w = PRONOUN →
  In (lower w) ["you"; "he"; "she"; "we"; "they";
                "my"; "your"; "his"; "her"; "our"; "their"].
Proof.
  intros H. apply (proj1 (classify_word_by_table w)) in H.
  destruct (contains_list_to_map _ _ H) as [v Hv].
  pose proof (lower_not_I w) as HI.
  simpl in Hv. simpl.
  repeat (destruct Hv as [Hv|Hv]; [injection Hv as Hk _; auto 15|]).
  destruct Hv.
Qed.

Lemma pronoun_key_I_unreachable_witness :
  In (lower "She") ["you"; "he"; "she"; "we"; "they";
                    "my"; "your"; "his"; "her"; "our"; "their"].
Proof. apply pronoun_key_I_unreachable. reflexivity. Defined.

(** X4: what [translate_word] returns.  A word whose lower-cased form is a
    key of the phrase dictionary gets the dictionary's value; otherwise a
    pronoun, verb, noun or adjective (for [classify_word]) gets the value
    of its table, and a determiner, a preposition or an unknown word is
    returned as it was given, in its own case. *)
Theorem translate_word_by_class (d : gmap string string) (w : string) :
  match d !! lower w with
  | Some v => translate_word d w = Ok v
  | None =>
      match classify_word w with
      | PRONOUN =>
          ∃ v, pronouns !! lower w = Some v ∧ translate_word d w = Ok v
      | VERB => ∃ v, verbs !! lower w = Some v ∧ translate_word d w = Ok v
      | NOUN => ∃ v, nouns !! lower w = Some v ∧ translate_word d w = Ok v
      | ADJECTIVE =>
          ∃ v, adjectives !! lower w = Some v ∧ translate_word d w = Ok v
      | _ => translate_word d w = Ok w
      end
  end.
Proof.
  destruct (d !! lower w) as [v|] eqn:Hd.
  { unfold translate_word, contains, subscript. cbv zeta. by rewrite Hd. }
  assert (Hc : contains d (lower w) = false)
    by (unfold contains; by rewrite Hd).
  unfold translate_word, classify_word. cbv zeta. rewrite Hc.
  repeat match goal with
         | |- context [if contains ?m ?k then _ else _] =>
             let H := fresh "H" in
             destruct (contains m k) eqn:H;
             [ destruct (contains_subscript m k H) as (v & Hv & Hs);
               rewrite Hs; exists v; split; [exact Hv | reflexivity] |]
         end.
  repeat match goal with
         | |- context [if ?b then _ else _] => destruct b
         end; reflexivity.
Qed.

(** ** More on the parse *)

Lemma parse_step_preposition p w :
  preposition (parse_step p w) = preposition p.
Proof. step_cases; reflexivity. Qed.

Lemma parse_loop_preposition ws : ∀ p,
  preposition (parse_loop ws p) = preposition p.
Proof.
  induction ws as [|w ws IH]; intros p; [reflexivity|].
  simpl. rewrite IH. apply parse_step_preposition.
Qed.

(** X5: [parse_sentence] never fills the preposition slot, although the
    parse has the key and [classify_word] knows prepositions. *)
Theorem preposition_never_set (sentence : string) :
  preposition (parse_sentence sentence) = None.
Proof.
  unfold parse_sentence, detect_question.
  repeat match goal with
         | |- context [if ?b then _ else _] => destruct b
         end; slots_cbn; apply parse_loop_preposition.
Qed.

Lemma parse_step_slots_typed p w :
  slots_typed p → slots_typed (parse_step p w).
Proof.
  intros (H1 & H2 & H3 & H4 & H5 & H6).
  assert (Hplace : in_list w PLACES = true → classify_word w = NOUN).
  { intros H. apply in_list_In in H. simpl in H.
    destruct H as [<-|[<-|[<-|[<-|[<-|[]]]]]]; reflexivity. }
  unfold slots_typed. step_cases; split_tests; subst;
    repeat match goal with |- _ ∧ _ => split end;
    intros x Hx; simplify_eq;
    first [ by apply H1 | by apply H2 | by apply H3 | by apply H4
          | by apply H5 | by apply H6
          | split; first [assumption | by apply Hplace]
          | assumption ].
Qed.

Lemma parse_loop_slots_typed ws : ∀ p,
  slots_typed p → slots_typed (parse_loop ws p).
Proof.
  induction ws as [|w ws IH]; intros p Hp; [exact Hp|].
  simpl. apply IH, parse_step_slots_typed, Hp.
Qed.

(** X6: every filled slot of a parse holds a token of the sentence of the
    kind of the slot: a pronoun that is no possessive in [subject], a verb
    in [verb], a noun in [object], an adjective in [adjective], a place
    noun in [location], a temporal word in [time]. *)
Theorem parse_sentence_slots_typed (sentence : string) :
  slots_typed (parse_sentence sentence) ∧
  slots_from (tokens sentence) (parse_sentence sentence).
Proof.
  pose proof (parse_loop_slots_typed (tokens sentence) parsed_init) as Ht.
  pose proof (parse_loop_slots_from (tokens sentence) [] parsed_init
                slots_from_init) as Hf.
  unfold parse_sentence. fold (tokens sentence).
  destruct (detect_question_slots sentence
              (parse_loop (tokens sentence) parsed_init))
    as (Es & Eo & Ev & Ea & El & Et).
  split.
  - unfold slots_typed. rewrite Es, Eo, Ev, Ea, El, Et. apply Ht.
    repeat split; discriminate.
  - intros slot Hslot w. simpl in Hf. specialize (Hf slot Hslot w).
    simpl in Hslot.
    destruct Hslot as [<-|[<-|[<-|[<-|[<-|[<-|[]]]]]]];
      rewrite ?Es, ?Eo, ?Ev, ?Ea, ?El, ?Et; exact Hf.
Qed.

(** ** Question types *)

Lemma question_type_parse sentence :
  question_type (parse_sentence sentence)
  = if startswith sentence "where" then Some "where"
    else if startswith sentence "how are" then Some "how_are"
    else if startswith sentence "do you have" then Some "do_you_have"
    else None.
Proof.
  unfold parse_sentence, detect_question.
  repeat match goal with
         | |- context [if ?b then _ else _] => destruct b
         end; slots_cbn; rewrite ?parse_loop_question_type; reflexivity.
Qed.

(** A sentence that starts with one of the three question prefixes starts
    with its first two letters. *)
Lemma question_prefix_chars sentence :
  (startswith sentence "where" = true →
   ∃ rest, sentence = String "w" (String "h" rest)) ∧
  (startswith sentence "how are" = true →
   ∃ rest, sentence = String "h" (String "o" rest)) ∧
  (startswith sentence "do you have" = true →
   ∃ rest, sentence = String "d" (String "o" rest)).
Proof.
  unfold startswith.
  split; [|split]; intros H;
    destruct sentence as [|a [|b rest]]; cbn [prefix] in H;
    repeat match type of H with
           | (if ?c then _ else _) = true =>
               destruct c as [e|e];
               [try discriminate e; subst | discriminate H];
               cbn [prefix] in H
           end; first [discriminate H | eauto].
Qed.

Lemma question_prefixes_exclusive sentence :
  (startswith sentence "where" = true →
   startswith sentence "how are" = false ∧
   startswith sentence "do you have" = false) ∧
  (startswith sentence "how are" = true →
   startswith sentence "do you have" = false).
Proof.
  destruct (question_prefix_chars sentence) as (Hw & Hh & Hd).
  repeat match goal with
         | |- _ ∧ _ => split
         | |- _ → _ => intros ?
         end;
    apply not_true_is_false; intros ?;
    repeat match goal with
           | H : ?a = true → _, H' : ?a = true |- _ =>
               destruct (H H') as [? ?]; clear H
           end; congruence.
Qed.

(** X7: the question type of a parse is decided by the first characters of
    the sentence as given: "where", "how_are" and "do_you_have" for the
    three prefixes (they exclude each other, so the order of the tests
    does not matter), and none otherwise. *)
Theorem question_type_by_prefix (sentence : string) :
  (question_type (parse_sentence sentence) = Some "where"
   ↔ startswith sentence "where" = true) ∧
  (question_type (parse_sentence sentence) = Some "how_are"
   ↔ startswith sentence "how are" = true) ∧
  (question_type (parse_sentence sentence) = Some "do_you_have"
   ↔ startswith sentence "do you have" = true) ∧
  (question_type (parse_sentence sentence) = None
   ↔ startswith sentence "where" = false ∧
     startswith sentence "how are" = false ∧
     startswith sentence "do you have" = false).
Proof.
  rewrite question_type_parse.
  destruct (question_prefixes_exclusive sentence) as (Hw & Hh).
  destruct (startswith sentence "where") eqn:E1;
    destruct (startswith sentence "how are") eqn:E2;
    destruct (startswith sentence "do you have") eqn:E3;
    repeat split; intros; try congruence;
    try (destruct (Hw eq_refl); congruence);
    try (specialize (Hh eq_refl); congruence);
    try (destruct H; congruence);
    repeat match goal with H : _ ∧ _ |- _ => destruct H end; congruence.
Qed.

(** ** Blank sentences *)

Lemma split_nil_lstrip s : split s = [] → lstrip s = "".
Proof.
  induction s as [|c s IH]; simpl; [reflexivity|].
  destruct (is_space c); [exact IH|].
  destruct s as [|c' s']; [discriminate|].
  destruct (is_space c'); [discriminate|].
  destruct (split (String c' s')); discriminate.
Qed.

Lemma blank_no_question s :
  lstrip s = "" → detect_question s parsed_init = parsed_init.
Proof.
  intros Hs. destruct (question_prefix_chars s) as (Hw & Hh & Hd).
  unfold detect_question.
  destruct (startswith s "where") eqn:E1.
  { destruct (Hw eq_refl) as [r ->]. discriminate Hs. }
  destruct (startswith s "how are") eqn:E2.
  { destruct (Hh eq_refl) as [r ->]. discriminate Hs. }
  destruct (startswith s "do you have") eqn:E3.
  { destruct (Hd eq_refl) as [r ->]. discriminate Hs. }
  reflexivity.
Qed.

(** X8: a sentence without tokens (empty, or white space only) parses to
    the empty parse and, when the empty string is no key of the phrase
    dictionary, translates to the empty string. *)
Theorem blank_sentence (d : gmap string string) (sentence : string) :
  split sentence = [] →
  d !! "" = None →
  parse_sentence sentence = parsed_init ∧
  generate_translation d sentence = Ok "".
Proof.
  intros Hs Hd. pose proof (split_nil_lstrip _ Hs) as Hl.
  assert (Hn : strip (lower sentence) = "").
  { unfold strip. by rewrite <- lower_lstrip, Hl. }
  assert (Hp : parse_sentence sentence = parsed_init).
  { unfold parse_sentence. rewrite Hn. by apply blank_no_question. }
  split; [exact Hp|].
  unfold generate_translation, contains. cbv zeta. rewrite Hn, Hd, Hp.
  rewrite question_patterns_skip, statement_patterns_skip by reflexivity.
  unfold possessive_patterns, fallback. cbv zeta. by rewrite Hs.
Qed.

Lemma blank_sentence_witness :
  generate_translation ∅ (String "009" "  ") = Ok "".
Proof.
  apply (blank_sentence ∅ (String "009" "  ")); vm_compute; reflexivity.
Defined.

(** ** The fixed greeting *)

(** X9: a sentence that starts with "how are" and is no key of the phrase
    dictionary translates to the fixed "I bódọụ?", whatever follows the
    prefix. *)
Theorem how_are_question (d : gmap string string) (sentence : string) :
  startswith sentence "how are" = true →
  d !! strip (lower sentence) = None →
  generate_translation d sentence = Ok "I bódọụ?".
Proof.
  intros Hs Hd. unfold generate_translation, contains. cbv zeta.
  rewrite Hd. unfold question_patterns. rewrite question_type_parse, Hs.
  destruct (question_prefix_chars sentence) as (Hw & _).
  destruct (startswith sentence "where") eqn:E; [|reflexivity].
  destruct (Hw eq_refl) as [r ->]. discriminate Hs.
Qed.

Lemma how_are_question_witness :
  generate_translation ∅ "how are the fish today" = Ok "I bódọụ?".
Proof. apply how_are_question; vm_compute; reflexivity. Defined.

(** ** Possessive pairs *)

Lemma rstrip_cons c s :
  is_space c = false → rstrip (String c s) = String c (rstrip s).
Proof. intros H. simpl. rewrite H. by destruct (rstrip s). Qed.

Lemma split_cons c s :
  is_space c = false → ∃ t ts, split (String c s) = String c t :: ts.
Proof.
  intros H. simpl. rewrite H. destruct s as [|c' s']; [eauto|].
  destruct (is_space c'); [eauto|].
  destruct (split (String c' s')) as [|t ts]; simpl; eauto.
Qed.

(** The first token of a sentence that starts with two characters that
    are not white starts with these characters, in lower case. *)
Lemma tokens_two_chars c1 c2 s :
  is_space c1 = false → is_space c2 = false →
  ∃ t ts, tokens (String c1 (String c2 s))
          = String (lower_char c1) (String (lower_char c2) t) :: ts.
Proof.
  intros H1 H2. unfold tokens, strip.
  assert (H1' := H1). assert (H2' := H2).
  rewrite <- is_space_lower_char in H1', H2'.
  cbn [lower lstrip]. rewrite H1'.
  rewrite !rstrip_cons by assumption.
  destruct (split_cons (lower_char c2) (rstrip (lower s)) H2')
    as (t & ts & Ht).
  cbn [split]. rewrite H1', H2'. cbn [split] in Ht. rewrite H2' in Ht.
  cbn [split]. rewrite Ht. simpl. eauto.
Qed.

Lemma possessive_no_question sentence w ws :
  tokens sentence = w :: ws → in_list w POSSESSIVES = true →
  question_type (parse_sentence sentence) = None.
Proof.
  intros Ht Hw. apply in_list_In in Hw.
  destruct (question_prefix_chars sentence) as (H1 & H2 & H3).
  rewrite question_type_parse.
  repeat match goal with
         | |- context [if ?b then _ else _] =>
             destruct b eqn:?; [exfalso|]
         end; [..|reflexivity];
    match goal with
    | H : true = true → _ |- _ => destruct (H eq_refl) as [r ->]
    end;
    match type of Ht with
    | tokens (String ?c1 (String ?c2 _)) = _ =>
        destruct (tokens_two_chars c1 c2 r eq_refl eq_refl)
          as (t & ts & Ht')
    end;
    rewrite Ht' in Ht; injection Ht as <- _; simpl in Hw;
    repeat (destruct Hw as [Hw|Hw]; [discriminate Hw|]); destruct Hw.
Qed.

Lemma parse_step_possessive p w :
  in_list w POSSESSIVES = true → parse_step p w = p.
Proof.
  intros Hw. apply in_list_In in Hw. simpl in Hw.
  destruct Hw as [<-|[<-|[<-|[<-|[<-|[<-|[]]]]]]];
    unfold parse_step; destruct (truthy (subject p)); reflexivity.
Qed.

Lemma slot_rule_one_token w : slot_rule (parse_step parsed_init w) = false.
Proof.
  step_cases; unfold slot_rule; slots_cbn; cbn [parsed_init];
    cbn [truthy]; rewrite ?andb_false_r; reflexivity.
Qed.

Lemma slot_rule_detect_question sentence p :
  slot_rule (detect_question sentence p) = slot_rule p.
Proof.
  unfold slot_rule.
  destruct (detect_question_slots sentence p) as (-> & -> & -> & -> & _).
  reflexivity.
Qed.

(** X10: a sentence of two tokens whose first is a possessive (my, your,
    his, her, our, their), and which is no key of the phrase dictionary,
    translates to the translation of the second token followed by the
    translation of the possessive: no question and no slot template can
    apply to it. *)
Theorem possessive_pair (d : gmap string string)
        (sentence p n : string) :
  tokens sentence = [p; n] →
  in_list p POSSESSIVES = true →
  d !! strip (lower sentence) = None →
  ∃ possessive noun : string,
    translate_word d p = Ok possessive ∧
    translate_word d n = Ok noun ∧
    generate_translation d sentence = Ok (noun ++ " " ++ possessive).
Proof.
  intros Ht Hp Hd.
  destruct (translate_word_returns d p) as [possessive Hpo].
  destruct (translate_word_returns d n) as [noun Hno].
  exists possessive, noun. repeat (split; [assumption|]).
  pose proof (possessive_no_question _ _ _ Ht Hp) as Hq.
  unfold generate_translation, contains. cbv zeta. rewrite Hd.
  rewrite question_patterns_skip.
  2: { unfold question_rule. by rewrite Hq. }
  rewrite statement_patterns_skip.
  2: { unfold parse_sentence. fold (tokens sentence).
       rewrite slot_rule_detect_question, Ht. cbn [parse_loop fold_left].
       rewrite (parse_step_possessive _ _ Hp). apply slot_rule_one_token. }
  unfold possessive_patterns. cbv zeta. fold (tokens sentence). rewrite Ht.
  cbn [List.length Nat.leb Nat.eqb index lookup list_lookup].
  change (Ok p ≫= ?f) with (f p). cbv beta. rewrite Hp, Hpo.
  change (Ok possessive ≫= ?f) with (f possessive). cbv beta.
  change (Ok n ≫= ?f) with (f n). cbv beta. rewrite Hno. reflexivity.
Qed.

Lemma possessive_pair_witness :
  generate_translation ∅ "My Father" = Ok "owéi yè".
Proof.
  assert (Ht : tokens "My Father" = ["my"; "father"])
    by (vm_compute; reflexivity).
  assert (Hi : in_list "my" POSSESSIVES = true) by reflexivity.
  assert (Hd : (∅ : gmap string string) !! strip (lower "My Father") = None)
    by (vm_compute; reflexivity).
  destruct (possessive_pair ∅ "My Father" "my" "father" Ht Hi Hd)
    as (possessive & noun & Hp & Hn & Hg).
  vm_compute in Hp, Hn. injection Hp as <-. injection Hn as <-. exact Hg.
Defined.

(** * The translation service *)

Lemma lookup_word_returns d w : returns (lookup_word d w).
Proof.
  unfold lookup_word. cbv zeta.
  destruct (contains d (remove_punctuation w)) eqn:H; [|apply returns_Ok].
  destruct (contains_subscript _ _ H) as (v & _ & ->). apply returns_Ok.
Qed.

Lemma word_by_word_returns d text : returns (word_by_word d text).
Proof.
  unfold word_by_word. cbv zeta.
  assert (H : ∀ ws, returns (mapM (lookup_word d) ws)).
  { induction ws as [|w ws [ts Hts]]; [by exists []|].
    destruct (lookup_word_returns d w) as [t Ht].
    exists (t :: ts). cbn [mapM]. unfold mapM in Hts |- *.
    by rewrite Ht, Hts. }
  destruct (H (split text)) as [ts ->]. apply returns_Ok.
Qed.

(** X11: [translate_to_ijaw] always returns a string: its dictionary
    subscripts follow membership tests, and whatever the grammar engine
    raises is caught.  On the empty text it returns the empty string, even
    if the dictionary has the empty key. *)
Theorem translate_to_ijaw_returns (d : gmap string string)
        (grammar_engine : option (gmap string string))
        (english_text : string) :
  (∃ t, translate_to_ijaw d grammar_engine english_text = Ok t) ∧
  translate_to_ijaw d grammar_engine "" = Ok "".
Proof.
  split; [|reflexivity].
  pose proof (word_by_word_returns d (lower (strip english_text))) as Hw.
  unfold translate_to_ijaw. cbv zeta.
  destruct (String.eqb english_text ""); [by eexists|].
  destruct (contains d (lower (strip english_text))) eqn:H.
  { destruct (contains_subscript _ _ H) as (v & _ & ->). by eexists. }
  destruct grammar_engine as [e|]; [|exact Hw].
  destruct (generate_translation e english_text) as [g|]; [|exact Hw].
  destruct (negb (String.eqb g "") && negb (String.eqb g english_text));
    [by eexists | exact Hw].
Qed.

(** X12: what [add_translation] stores is what [translate_to_ijaw] finds:
    after adding a translation for a word, every text that is not empty
    and that normalises (stripped, lower-cased) to the lower-cased word
    translates to it, whatever the grammar engine would say. *)
Theorem add_then_translate (d : gmap string string)
        (grammar_engine : option (gmap string string))
        (english_word ijaw_word english_text : string) :
  english_text ≠ "" →
  lower (strip english_text) = lower english_word →
  translate_to_ijaw (add_translation d english_word ijaw_word)
                    grammar_engine english_text
  = Ok ijaw_word.
Proof.
  intros Hne Hk. unfold translate_to_ijaw, add_translation. cbv zeta.
  destruct (String.eqb_spec english_text ""); [contradiction|].
  unfold contains, subscript. by rewrite Hk, lookup_insert_eq.
Qed.

Lemma add_then_translate_witness :
  translate_to_ijaw (add_translation ∅ "Good Morning" "Seri")
                    (Some ∅) "  good MORNING "
  = Ok "Seri".
Proof. apply add_then_translate; [discriminate | reflexivity]. Defined.

(** ** Keys that cannot be found *)

Lemma rstrip_idem s : rstrip (rstrip s) = rstrip s.
Proof.
  induction s as [|c s IH]; [reflexivity|]. cbn [rstrip].
  destruct (rstrip s) as [|a r] eqn:E.
  - destruct (is_space c) eqn:Ec; [reflexivity|].
    cbn [rstrip]. by rewrite Ec.
  - cbn [rstrip] in IH |- *. by rewrite IH.
Qed.

Lemma lstrip_head s :
  lstrip s = "" ∨ ∃ c t, lstrip s = String c t ∧ is_space c = false.
Proof.
  induction s as [|c s IH]; [by left|]. simpl.
  destruct (is_space c) eqn:E; [exact IH | right; eauto].
Qed.

Lemma strip_idem s : strip (strip s) = strip s.
Proof.
  unfold strip. destruct (lstrip_head s) as [->|(c & t & -> & Hc)];
    [reflexivity|].
  rewrite rstrip_cons by assumption. cbn [lstrip]. rewrite Hc.
  rewrite <- (rstrip_cons c t Hc). apply rstrip_idem.
Qed.

Lemma no_space_strip s : no_space s = true → strip s = s.
Proof.
  intros H. unfold strip.
  assert (Hl : lstrip s = s).
  { destruct s as [|c s]; [reflexivity|]. simpl in *.
    by destruct (is_space c). }
  rewrite Hl. clear Hl. induction s as [|c s IH]; [reflexivity|].
  simpl in H. apply andb_true_iff in H as [Hc Hs].
  apply negb_true_iff in Hc. by rewrite rstrip_cons, IH.
Qed.

Lemma split_no_space s : Forall (λ w, no_space w = true) (split s).
Proof.
  induction s as [|c s IH]; simpl; [constructor|].
  destruct (is_space c) eqn:Ec; [exact IH|].
  assert (H1 : no_space (String c "") = true) by (simpl; by rewrite Ec).
  destruct s as [|c' s']; [by repeat constructor|].
  destruct (is_space c'); [by constructor|].
  destruct (split (String c' s')) as [|t ts]; simpl; [by repeat constructor|].
  inversion IH; subst. constructor; [|assumption].
  simpl. by rewrite Ec.
Qed.

Lemma remove_punctuation_no_space w :
  no_space w = true → no_space (remove_punctuation w) = true.
Proof.
  induction w as [|c w IH]; [reflexivity|]. simpl. intros H.
  apply andb_true_iff in H as [Hc Hw].
  destruct (is_word c || is_space c); simpl; [rewrite Hc|]; auto.
Qed.

Lemma mapM_cons {A B} (f : A → result B) w ws :
  mapM f (w :: ws) = y ← f w; k ← mapM f ws; mret (y :: k).
Proof. reflexivity. Qed.

Lemma mapM_ext (f g : string → result string) ws :
  Forall (λ w, f w = g w) ws → mapM f ws = mapM g ws.
Proof.
  induction 1 as [|w ws Hw _ IH]; [reflexivity|].
  by rewrite !mapM_cons, Hw, IH.
Qed.

Lemma lookup_word_insert_ne d k v w :
  remove_punctuation w ≠ k →
  lookup_word (<[k:=v]> d) w = lookup_word d w.
Proof.
  intros H. unfold lookup_word, contains, subscript. cbv zeta.
  by rewrite lookup_insert_ne.
Qed.

(** X13: [add_translation] lower-cases the word but does not strip it,
    while [translate_to_ijaw] looks up stripped texts and tokens only: a
    translation added under a word with white space at either end is never
    found, and translations are what they were before. *)
Theorem padded_key_never_found (d : gmap string string)
        (grammar_engine : option (gmap string string))
        (english_word ijaw_word english_text : string) :
  strip (lower english_word) ≠ lower english_word →
  translate_to_ijaw (add_translation d english_word ijaw_word)
                    grammar_engine english_text
  = translate_to_ijaw d grammar_engine english_text.
Proof.
  intros Hk. unfold add_translation. set (k := lower english_word) in *.
  assert (Htext : lower (strip english_text) ≠ k).
  { intros E. apply Hk. rewrite <- E.
    by rewrite <- lower_strip, strip_idem. }
  assert (Hw : word_by_word (<[k:=ijaw_word]> d)
                            (lower (strip english_text))
               = word_by_word d (lower (strip english_text))).
  { unfold word_by_word. cbv zeta. f_equal. apply mapM_ext.
    eapply Forall_impl; [apply split_no_space|].
    intros w Hns. apply lookup_word_insert_ne. intros E. apply Hk.
    apply no_space_strip. rewrite <- E.
    by apply remove_punctuation_no_space. }
  unfold translate_to_ijaw, contains, subscript. cbv zeta.
  rewrite lookup_insert_ne by congruence. fold (contains d (lower (strip english_text))).
  by rewrite Hw.
Qed.

Lemma padded_key_never_found_witness :
  translate_to_ijaw (add_translation ∅ "hello " "Dó!") None "hello"
  = translate_to_ijaw ∅ None "hello".
Proof. apply padded_key_never_found. vm_compute. discriminate. Defined.

(** * Organising the dictionary *)

(** ** Ordered dictionaries *)

Lemma dict_set_fresh k v d :
  ¬ In k (map fst d) → dict_set k v d = (d ++ [(k, v)])%list.
Proof.
  induction d as [|[k' v'] d IH]; simpl; intros H; [reflexivity|].
  destruct (String.eqb_spec k k') as [->|_]; [tauto|].
  rewrite IH; [reflexivity | tauto].
Qed.

Lemma dict_update_fresh other : ∀ d,
  NoDup (map fst other) →
  (∀ k, In k (map fst d) → ¬ In k (map fst other)) →
  dict_update d other = (d ++ other)%list.
Proof.
  unfold dict_update.
  induction other as [|[k v] other IH]; intros d Hnd Hdis; simpl.
  - by rewrite app_nil_r.
  - inversion Hnd as [|? ? Hk Hnd']; subst.
    rewrite dict_set_fresh.
    2: { intros Hin. apply (Hdis k Hin). by left. }
    rewrite IH; [by rewrite <- app_assoc | assumption |].
    intros k' Hin Hin'. rewrite List.map_app, List.in_app_iff in Hin.
    destruct Hin as [Hin|[<-|[]]].
    + apply (Hdis k' Hin). by right.
    + apply Hk. by apply list_elem_of_In.
Qed.

Lemma dict_of_items_NoDup items :
  NoDup (map fst items) → dict_of_items items = items.
Proof.
  intros H. unfold dict_of_items. by rewrite dict_update_fresh.
Qed.

Lemma dict_get_Some k v d :
  NoDup (map fst d) → dict_get k d = Some v ↔ In (k, v) d.
Proof.
  induction d as [|[k' v'] d IH]; simpl; intros Hnd; [by split|].
  inversion Hnd as [|? ? Hk Hnd']; subst.
  destruct (String.eqb_spec k k') as [->|Hne].
  - split; [intros [= ->]; by left|].
    intros [[= ->]|Hin]; [reflexivity|].
    exfalso. apply Hk. apply list_elem_of_In, in_map_iff. by exists (k', v).
  - rewrite (IH Hnd'). split; [by right|].
    intros [[= -> ->]|Hin]; [contradiction | assumption].
Qed.

Lemma keys_Permutation_NoDup (d d' : list (string * string)) :
  NoDup (map fst d) → d ≡ₚ d' → NoDup (map fst d').
Proof.
  intros Hnd Hp. pose proof (Permutation_map fst Hp) as Hp'.
  by rewrite <- Hp'.
Qed.

Lemma dict_get_Permutation k d d' :
  NoDup (map fst d) → d ≡ₚ d' → dict_get k d' = dict_get k d.
Proof.
  intros Hnd Hp.
  pose proof (keys_Permutation_NoDup _ _ Hnd Hp) as Hnd'.
  destruct (dict_get k d') as [v|] eqn:E'.
  - apply (dict_get_Some _ _ _ Hnd') in E'. symmetry.
    apply (dict_get_Some _ _ _ Hnd).
    eapply Permutation_in; [symmetry; exact Hp | exact E'].
  - destruct (dict_get k d) as [v|] eqn:E; [|reflexivity].
    apply (dict_get_Some _ _ _ Hnd) in E.
    assert (Hin : In (k, v) d') by (eapply Permutation_in; eauto).
    apply (dict_get_Some _ _ _ Hnd') in Hin. congruence.
Qed.

(** ** The categories *)

(** Decides the tests [category_of item.1 = c] once the category is known. *)
Ltac decide_category :=
  repeat match goal with
         | |- context [bool_decide (?a = ?b)] =>
             first [ rewrite (bool_decide_eq_true_2 (a = b)) by reflexivity
                   | rewrite (bool_decide_eq_false_2 (a = b)) by discriminate ]
         end.

Lemma categorize_entry_select cats item done :
  ¬ In item.1 (map fst done) →
  cats = mkCategories (select Greeting done) (select BasicWord done)
                      (select CommonPhrase done)
                      (select CompleteSentence done) →
  categorize_entry cats item
  = mkCategories (select Greeting (done ++ [item]))
                 (select BasicWord (done ++ [item]))
                 (select CommonPhrase (done ++ [item]))
                 (select CompleteSentence (done ++ [item])).
Proof.
  intros Hk ->.
  assert (Hfresh : ∀ c, ¬ In item.1 (map fst (select c done))).
  { intros c Hin. apply Hk. apply in_map_iff in Hin as (x & Hx & Hin).
    apply List.filter_In in Hin as [Hin _]. apply in_map_iff. eauto. }
  unfold categorize_entry, select in *. cbv zeta.
  rewrite !List.filter_app. cbn [List.filter].
  destruct item as [english ijaw]. cbn [fst snd] in *.
  unfold category_of.
  destruct (in_list (strip (lower english)) greetings);
    [|destruct (List.length (split english) =? 1)%nat;
      [|destruct ((List.length (split english) <=? 4)%nat
                  && negb (endswith english ".")
                  && negb (endswith english "?"))]];
    cbn [greetings_and_politeness basic_words common_phrases
         complete_sentences];
    decide_category; rewrite ?app_nil_r;
    f_equal; apply dict_set_fresh, Hfresh.
Qed.

Lemma categorize_entries_select rest : ∀ done cats,
  NoDup (map fst (done ++ rest)) →
  cats = mkCategories (select Greeting done) (select BasicWord done)
                      (select CommonPhrase done)
                      (select CompleteSentence done) →
  fold_left categorize_entry rest cats
  = mkCategories (select Greeting (done ++ rest))
                 (select BasicWord (done ++ rest))
                 (select CommonPhrase (done ++ rest))
                 (select CompleteSentence (done ++ rest)).
Proof.
  induction rest as [|item rest IH]; intros done cats Hnd Hc.
  - by rewrite app_nil_r.
  - cbn [fold_left].
    replace (done ++ item :: rest)%list with ((done ++ [item]) ++ rest)%list
      in * by (by rewrite <- app_assoc).
    apply IH; [assumption|].
    apply categorize_entry_select; [|assumption].
    rewrite !List.map_app in Hnd. apply NoDup_app in Hnd as (Hnd & _ & _).
    apply NoDup_app in Hnd as (_ & Hdis & _).
    intros Hin. apply (Hdis _ (proj2 (list_elem_of_In _ _) Hin)).
    by left.
Qed.

Lemma select_Permutation d :
  (select Greeting d ++ select BasicWord d ++ select CommonPhrase d
   ++ select CompleteSentence d)%list ≡ₚ d.
Proof.
  unfold select. induction d as [|item d IH]; [reflexivity|].
  cbn [List.filter].
  destruct (category_of item.1); decide_category;
    cbn [app]; rewrite ?app_assoc; symmetry;
    first [apply perm_skip | apply Permutation_cons_app];
    rewrite <- ?app_assoc; symmetry; exact IH.
Qed.

Lemma select_keys c d k :
  In k (map fst (select c d)) → category_of k = c ∧ In k (map fst d).
Proof.
  intros Hin. apply in_map_iff in Hin as ([k' v] & <- & Hin).
  apply List.filter_In in Hin as [Hin Hc]. apply bool_decide_eq_true in Hc.
  split; [exact Hc|]. apply in_map_iff. by exists (k', v).
Qed.

(** ** Sorting *)

Lemma insert_by_key_Permutation x l : insert_by_key x l ≡ₚ x :: l.
Proof.
  induction l as [|y l IH]; simpl; [reflexivity|].
  destruct (String.ltb (sort_key x) (sort_key y)); [reflexivity|].
  rewrite IH. apply perm_swap.
Qed.

Lemma sorted_Permutation l : sorted l ≡ₚ l.
Proof.
  unfold sorted.
  assert (H : ∀ acc, fold_left (λ acc x, insert_by_key x acc) l acc
                     ≡ₚ (acc ++ l)%list).
  { induction l as [|x l IH]; intros acc; simpl.
    - by rewrite app_nil_r.
    - rewrite IH, insert_by_key_Permutation.
      by rewrite <- Permutation_middle. }
  apply (H []).
Qed.

Lemma ltb_leb s1 s2 : String.ltb s1 s2 = true → String.leb s1 s2 = true.
Proof.
  unfold String.ltb, String.leb. by destruct (String.compare s1 s2).
Qed.

Lemma not_ltb_leb s1 s2 : String.ltb s1 s2 = false → String.leb s2 s1 = true.
Proof.
  unfold String.ltb, String.leb. rewrite (String.compare_antisym s1 s2).
  by destruct (String.compare s2 s1).
Qed.

Lemma insert_by_key_Sorted x l :
  Sorted key_le l → Sorted key_le (insert_by_key x l).
Proof.
  induction l as [|y l IH]; simpl; intros Hs; [by repeat constructor|].
  destruct (String.ltb (sort_key x) (sort_key y)) eqn:E.
  - constructor; [assumption|]. constructor. by apply ltb_leb.
  - apply Sorted_inv in Hs as [Hs Hhd].
    constructor; [by apply IH|].
    destruct l as [|z l]; simpl.
    + constructor. by apply not_ltb_leb.
    + destruct (String.ltb (sort_key x) (sort_key z)).
      * constructor. by apply not_ltb_leb.
      * constructor. by inversion Hhd.
Qed.

Lemma sorted_Sorted l : Sorted key_le (sorted l).
Proof.
  unfold sorted.
  assert (H : ∀ acc, Sorted key_le acc →
                     Sorted key_le
                       (fold_left (λ acc x, insert_by_key x acc) l acc)).
  { induction l as [|x l IH]; intros acc Hacc; simpl; [assumption|].
    by apply IH, insert_by_key_Sorted. }
  apply H. constructor.
Qed.

Lemma select_NoDup c d :
  NoDup (map fst d) → NoDup (map fst (select c d)).
Proof.
  unfold select. induction d as [|item d IH]; simpl; intros Hnd;
    [constructor|].
  inversion Hnd as [|? ? Hk Hnd']; subst.
  destruct (bool_decide (category_of item.1 = c)); simpl; [|by apply IH].
  constructor; [|by apply IH].
  intros Hin. apply Hk. apply list_elem_of_In.
  apply list_elem_of_In in Hin. apply in_map_iff in Hin as (x & Hx & Hin).
  apply List.filter_In in Hin as [Hin _]. apply in_map_iff. eauto.
Qed.

Lemma sorted_select_NoDup c d :
  NoDup (map fst d) → NoDup (map fst (sorted (select c d))).
Proof.
  intros Hnd. apply (keys_Permutation_NoDup (select c d)).
  - by apply select_NoDup.
  - symmetry. apply sorted_Permutation.
Qed.

Lemma sorted_select_keys c d k :
  In k (map fst (sorted (select c d))) →
  category_of k = c ∧ In k (map fst d).
Proof.
  intros Hin. apply (select_keys c d k).
  eapply Permutation_in; [|exact Hin].
  apply Permutation_map, sorted_Permutation.
Qed.

Lemma categorize_entries_eq d :
  NoDup (map fst d) →
  categorize_entries d
  = mkCategories (select Greeting d) (select BasicWord d)
                 (select CommonPhrase d) (select CompleteSentence d).
Proof.
  intros Hnd. unfold categorize_entries.
  by rewrite (categorize_entries_select d []).
Qed.

Lemma organize_eq d :
  NoDup (map fst d) →
  organize d
  = (sorted (select Greeting d) ++ sorted (select BasicWord d)
     ++ sorted (select CommonPhrase d)
     ++ sorted (select CompleteSentence d))%list.
Proof.
  intros Hnd. unfold organize. rewrite (categorize_entries_eq d Hnd).
  unfold sort_categories, create_organized_dictionary.
  cbn [greetings_and_politeness basic_words common_phrases
       complete_sentences]. cbv zeta.
  rewrite (dict_of_items_NoDup (sorted (select Greeting d))),
    (dict_of_items_NoDup (sorted (select BasicWord d))),
    (dict_of_items_NoDup (sorted (select CommonPhrase d))),
    (dict_of_items_NoDup (sorted (select CompleteSentence d)))
    by (by apply sorted_select_NoDup).
  set (G := sorted (select Greeting d)).
  set (B := sorted (select BasicWord d)).
  set (P := sorted (select CommonPhrase d)).
  set (S := sorted (select CompleteSentence d)).
  assert (Hdis : ∀ c l, (∀ k, In k (map fst l) → category_of k ≠ c) →
                        dict_update l (sorted (select c d))
                        = (l ++ sorted (select c d))%list).
  { intros c l Hl. apply dict_update_fresh; [by apply sorted_select_NoDup|].
    intros k Hin Hin'. apply sorted_select_keys in Hin' as [Hc _].
    by apply (Hl k Hin). }
  assert (Hcat : ∀ c k, In k (map fst (sorted (select c d))) →
                        category_of k = c).
  { intros c k Hin. by apply sorted_select_keys in Hin as [Hc _]. }
  unfold G at 1. rewrite (Hdis Greeting []) by (intros k []).
  cbn [app]. fold G.
  unfold B at 1. rewrite (Hdis BasicWord G).
  2: { intros k Hin. rewrite (Hcat _ _ Hin). discriminate. }
  fold B. unfold P at 1. rewrite (Hdis CommonPhrase (G ++ B)%list).
  2: { intros k Hin. rewrite List.map_app, List.in_app_iff in Hin.
       destruct Hin as [Hin|Hin]; rewrite (Hcat _ _ Hin); discriminate. }
  fold P. unfold S at 1.
  rewrite (Hdis CompleteSentence ((G ++ B) ++ P)%list).
  2: { intros k Hin. rewrite !List.map_app, !List.in_app_iff in Hin.
       destruct Hin as [[Hin|Hin]|Hin]; rewrite (Hcat _ _ Hin);
         discriminate. }
  by rewrite <- !app_assoc.
Qed.

(** X14: on a dictionary (no key repeats), [categorize_entries] files
    every entry under exactly one category, by its key alone, and keeps the
    order of the dictionary within each category: a category holds the
    entries whose key falls in it, and the four together hold the entries
    of the dictionary, each once. *)
Theorem categorize_entries_partition (dictionary : list (string * string)) :
  NoDup (map fst dictionary) →
  let categories := categorize_entries dictionary in
  greetings_and_politeness categories = select Greeting dictionary ∧
  basic_words categories = select BasicWord dictionary ∧
  common_phrases categories = select CommonPhrase dictionary ∧
  complete_sentences categories = select CompleteSentence dictionary ∧
  (greetings_and_politeness categories ++ basic_words categories
   ++ common_phrases categories ++ complete_sentences categories)%list
  ≡ₚ dictionary.
Proof.
  intros Hnd. cbv zeta. rewrite (categorize_entries_eq _ Hnd).
  cbn [greetings_and_politeness basic_words common_phrases
       complete_sentences].
  repeat split. apply select_Permutation.
Qed.

Lemma categorize_entries_partition_witness :
  categorize_entries
    [("water", "bení"); ("Thank you", "Nụ́ à"); ("good food", "botu fị́yaị");
     ("how are you?", "I bódọụ?")]
  = mkCategories [("Thank you", "Nụ́ à")] [("water", "bení")]
                 [("good food", "botu fị́yaị")]
                 [("how are you?", "I bódọụ?")].
Proof.
  assert (Hnd : NoDup (map fst
    [("water", "bení"); ("Thank you", "Nụ́ à"); ("good food", "botu fị́yaị");
     ("how are you?", "I bódọụ?")])).
  { apply (bool_decide_unpack _). vm_compute. exact I. }
  destruct (categorize_entries_partition _ Hnd) as (Hg & Hb & Hp & Hs & _).
  destruct (categorize_entries _) as [g b p s].
  cbn [greetings_and_politeness basic_words common_phrases
       complete_sentences] in *.
  rewrite Hg, Hb, Hp, Hs. vm_compute. reflexivity.
Defined.

(** X15: on a dictionary (no key repeats), the organised dictionary lists
    the greetings first, then the single words, then the short phrases,
    then the sentences, and within each group the entries of that
    category in non-decreasing order of their lower-cased keys. *)
Theorem organize_layout (dictionary : list (string * string)) :
  NoDup (map fst dictionary) →
  ∃ g b p s : list (string * string),
    organize dictionary = (g ++ b ++ p ++ s)%list ∧
    (g ≡ₚ select Greeting dictionary ∧ Sorted key_le g) ∧
    (b ≡ₚ select BasicWord dictionary ∧ Sorted key_le b) ∧
    (p ≡ₚ select CommonPhrase dictionary ∧ Sorted key_le p) ∧
    (s ≡ₚ select CompleteSentence dictionary ∧ Sorted key_le s).
Proof.
  intros Hnd.
  exists (sorted (select Greeting dictionary)),
         (sorted (select BasicWord dictionary)),
         (sorted (select CommonPhrase dictionary)),
         (sorted (select CompleteSentence dictionary)).
  split; [by apply organize_eq|].
  repeat split; first [apply sorted_Permutation | apply sorted_Sorted].
Qed.

Lemma organize_layout_witness :
  ∃ g b p s : list (string * string),
    organize [("water", "bení"); ("Hello", "Dó!"); ("apple", "x")]
    = (g ++ b ++ p ++ s)%list ∧
    (g ≡ₚ select Greeting
            [("water", "bení"); ("Hello", "Dó!"); ("apple", "x")]
     ∧ Sorted key_le g) ∧
    (b ≡ₚ select BasicWord
            [("water", "bení"); ("Hello", "Dó!"); ("apple", "x")]
     ∧ Sorted key_le b) ∧
    (p ≡ₚ select CommonPhrase
            [("water", "bení"); ("Hello", "Dó!"); ("apple", "x")]
     ∧ Sorted key_le p) ∧
    (s ≡ₚ select CompleteSentence
            [("water", "bení"); ("Hello", "Dó!"); ("apple", "x")]
     ∧ Sorted key_le s).
Proof.
  apply organize_layout. apply (bool_decide_unpack _). vm_compute. exact I.
Defined.

(** X16: organising a dictionary (no key repeats) loses and invents
    nothing: the organised dictionary has the entries of the dictionary,
    each once, no key repeats in it, and every key has the value it had. *)
Theorem organize_keeps_entries (dictionary : list (string * string)) :
  NoDup (map fst dictionary) →
  organize dictionary ≡ₚ dictionary ∧
  NoDup (map fst (organize dictionary)) ∧
  ∀ k, dict_get k (organize dictionary) = dict_get k dictionary.
Proof.
  intros Hnd.
  assert (Hp : organize dictionary ≡ₚ dictionary).
  { rewrite (organize_eq _ Hnd), !sorted_Permutation.
    apply select_Permutation. }
  split; [exact Hp|]. split.
  - apply (keys_Permutation_NoDup dictionary); [assumption | by symmetry].
  - intros k. apply dict_get_Permutation; [assumption | by symmetry].
Qed.

Lemma organize_keeps_entries_witness :
  dict_get "water"
    (organize [("water", "bení"); ("Hello", "Dó!"); ("apple", "x")])
  = Some "bení".
Proof.
  assert (Hnd : NoDup (map fst
    [("water", "bení"); ("Hello", "Dó!"); ("apple", "x")])).
  { apply (bool_decide_unpack _). vm_compute. exact I. }
  destruct (organize_keeps_entries _ Hnd) as (_ & _ & Hget).
  rewrite Hget. reflexivity.
Defined.

Lemma endswith_char_cons a s c :
  s ≠ "" → endswith (String a s) (String c "") = endswith s (String c "").
Proof.
  destruct s as [|b s]; [done|]. intros _. unfold endswith.
  cbn [String.length Nat.sub substring Nat.leb]. by rewrite Nat.sub_0_r.
Qed.

Lemma blank_endswith s c :
  lstrip s = "" → endswith s (String c "") = true → is_space c = true.
Proof.
  induction s as [|a s IH]; [discriminate|]. cbn [lstrip].
  destruct (is_space a) eqn:Ea; [|discriminate]. intros Hl.
  destruct s as [|b s].
  - unfold endswith. simpl. destruct (Ascii.eqb_spec a c) as [<-|];
      [done | discriminate].
  - rewrite endswith_char_cons by discriminate. by apply IH.
Qed.

(** X17: a key without tokens (the empty key, or white space only) is no
    single word for [categorize_entries]: splitting it gives no word, not
    one, so its entry is filed under the common phrases. *)
Theorem blank_key_is_common_phrase (dictionary : list (string * string))
        (english ijaw : string) :
  NoDup (map fst dictionary) →
  In (english, ijaw) dictionary →
  split english = [] →
  In (english, ijaw) (common_phrases (categorize_entries dictionary)).
Proof.
  intros Hnd Hin Hs. rewrite (categorize_entries_eq _ Hnd).
  cbn [common_phrases]. apply List.filter_In. split; [assumption|].
  apply bool_decide_eq_true. cbn [fst]. unfold category_of.
  pose proof (split_nil_lstrip _ Hs) as Hl.
  assert (Hn : strip (lower english) = "").
  { unfold strip. by rewrite <- lower_lstrip, Hl. }
  rewrite Hn, Hs.
  assert (He : ∀ c, is_space c = false →
                    endswith english (String c "") = false).
  { intros c Hc. apply not_true_is_false. intros E.
    apply (blank_endswith _ _ Hl) in E. congruence. }
  rewrite !He by reflexivity. reflexivity.
Qed.

Lemma blank_key_is_common_phrase_witness :
  In ("  ", "x") (common_phrases (categorize_entries [("a", "b"); ("  ", "x")])).
Proof.
  apply blank_key_is_common_phrase.
  - apply (bool_decide_unpack _). vm_compute. exact I.
  - right. left. reflexivity.
  - reflexivity.
Defined.
